(** * Sensorbite evacuation routing: the route planner and its distance utility

    A shallow embedding of [app/utils.py] (the haversine distance and the
    coordinate validation), [app/engine.py] (class [RoutePlanner]) and
    [app/main.py] (the start-up and the request handlers), and the
    properties of the routing core that follow from the code.

    Conventions of the embedding.
    - Python floats are idealised as real numbers ([R]): [*], [/], [<] are the
      exact operations, and [float('inf')] is a separate top element.  NaN and
      rounding do not exist in the arithmetic of the model; what [float()]
      makes of a text may be an infinity or a NaN, and
      [validate_coordinates] refuses both.
    - A graph node is the coordinate tuple [(lon, lat)] the code uses as the
      networkx node key; node identity is equality of the two numbers.
    - The third-party calls are not part of the repository: shapely's
      [intersects] and networkx's [astar_path] are parameters of the engine,
      constrained only by what their documentation promises.  The networkx
      [Graph] container itself is modelled concretely (insertion-ordered
      nodes, one attribute dictionary per unordered node pair).
    - Where rounding decides what the code does (a square root whose
      argument comes out negative, a weight that a multiplication and a
      division do not give back), module [Binary64] has the same lines of
      the code over binary64 floats, Rocq's primitive floats, with the C
      library's [sin], [cos], [pow] and [atan2] as parameters.
    - Methods of [RoutePlanner] take the planner and return it next to their
      result.  Logging is left out.  In the engine a planner starts from the
      [gdf] it holds; the start-up of [app/main.py] takes the file system,
      [gpd.read_file] and the flood service as parameters.

    The file has the definitions first (the code, then the notions the
    properties speak about and the maps used as examples) and the lemmas
    after them. *)

From Stdlib Require Import Reals Lra Lia String Bool Arith List.
From Stdlib Require Import Machin DecimalString ClassicalDescription IndefiniteDescription.
From Stdlib Require DecimalNat PrimFloat.
Import ListNotations.

Local Open Scope R_scope.

(* ================================================================= *)
(** ** app/utils.py *)

Module Utils.

(** [math.radians]: degrees to radians. *)
Definition radians (x : R) : R := x * (PI / 180).

(** [math.atan2 y x]: the angle of the point [(x, y)], in [(-PI, PI]]. *)
Definition atan2 (y x : R) : R :=
  if Rlt_dec 0 x then atan (y / x)
  else if Rlt_dec x 0 then
    (if Rle_dec 0 y then atan (y / x) + PI else atan (y / x) - PI)
  else if Rlt_dec 0 y then PI / 2
  else if Rlt_dec y 0 then - (PI / 2)
  else 0.

(** The haversine term [a] computed in the body of [haversine_distance]. *)
Definition haversine_a (lat1 lon1 lat2 lon2 : R) : R :=
  let phi1 := radians lat1 in
  let phi2 := radians lat2 in
  let delta_phi := radians (lat2 - lat1) in
  let delta_lambda := radians (lon2 - lon1) in
  sin (delta_phi / 2) ^ 2 +
  cos phi1 * cos phi2 * sin (delta_lambda / 2) ^ 2.

(** [haversine_distance(lat1, lon1, lat2, lon2)], in metres.  [math.sqrt]
    raises on a negative argument; over the reals both arguments lie in
    [[0, 1]] (lemma [haversine_a_range] below), so [sqrt] is total here. *)
Definition haversine_distance (lat1 lon1 lat2 lon2 : R) : R :=
  let R_earth := 6371000 in
  let a := haversine_a lat1 lon1 lat2 lon2 in
  let c := 2 * atan2 (sqrt a) (sqrt (1 - a)) in
  R_earth * c.

End Utils.

(* ================================================================= *)
(** ** The networkx [Graph] the planner owns *)

Module Nx.

(** A node is the coordinate tuple [(lon, lat)]. *)
Definition node : Type := (R * R)%type.

Definition node_eq_dec (a b : node) : {a = b} + {a <> b}.
Proof. decide equality; apply Req_EM_T. Defined.

Definition node_eqb (a b : node) : bool :=
  if node_eq_dec a b then true else false.

(** A shapely [LineString]: its coordinate sequence. *)
Definition LineString : Type := list node.

(** The attribute dictionary of an edge, with the four keys [add_edge] is
    always called with. *)
Record EdgeData : Type := mkEdgeData {
  weight : R;
  geometry : LineString;
  segment_id : string;
  is_flooded : bool
}.

(** [nodes]: the node keys in insertion order.  [edges]: one entry per
    unordered node pair, in the order the pairs were first inserted; the
    attribute dictionary is shared by both directions of the pair. *)
Record Graph : Type := mkGraph {
  nodes : list node;
  edges : list (node * node * EdgeData)
}.

(** [nx.Graph()] *)
Definition empty_graph : Graph := mkGraph [] [].

(** Whether [(u, v)] and [(a, b)] are the same unordered pair. *)
Definition same_edge (u v a b : node) : bool :=
  (node_eqb u a && node_eqb v b) || (node_eqb u b && node_eqb v a).

Fixpoint lookup_edge (es : list (node * node * EdgeData)) (u v : node)
  : option EdgeData :=
  match es with
  | [] => None
  | (a, b, d) :: rest =>
      if same_edge u v a b then Some d else lookup_edge rest u v
  end.

(** [G.get_edge_data(u, v)]: the attribute dictionary, or [None]. *)
Definition get_edge_data (g : Graph) (u v : node) : option EdgeData :=
  lookup_edge (edges g) u v.

Definition add_node (ns : list node) (n : node) : list node :=
  if existsb (node_eqb n) ns then ns else ns ++ [n].

(** The dictionary update of [add_edge]: an existing pair keeps its place and
    takes the new attributes, a new pair goes last. *)
Fixpoint upsert_edge (es : list (node * node * EdgeData)) (u v : node)
  (d : EdgeData) : list (node * node * EdgeData) :=
  match es with
  | [] => [(u, v, d)]
  | (a, b, d0) :: rest =>
      if same_edge u v a b then (a, b, d) :: rest
      else (a, b, d0) :: upsert_edge rest u v d
  end.

(** [G.add_edge(u, v, **attr)] *)
Definition add_edge (g : Graph) (u v : node) (d : EdgeData) : Graph :=
  mkGraph (add_node (add_node (nodes g) u) v) (upsert_edge (edges g) u v d).

(** What [nx.astar_path] does: return a node list, raise [NetworkXNoPath],
    or raise something else. *)
Inductive AstarOutcome : Type :=
| AstarPath (path : list node)
| NetworkXNoPath
| AstarRaised.

(** [p] is a walk of [g] from [s] to [t]: it starts at [s], ends at [t],
    and consecutive nodes are joined by an edge. *)
Fixpoint is_path (g : Graph) (s t : node) (p : list node) : Prop :=
  match p with
  | [] => False
  | [x] => x = s /\ x = t /\ In x (nodes g)
  | x :: ((y :: _) as rest) =>
      x = s /\ get_edge_data g x y <> None /\ is_path g y t rest
  end.

Definition connected (g : Graph) (s t : node) : Prop :=
  exists p, is_path g s t p.

End Nx.

(* ================================================================= *)
(** ** Python built-ins the planner uses *)

Module Py.

(** [float('inf')] next to the finite floats. *)
Inductive ExtR : Type :=
| Finite (x : R)
| PosInf.

(** [d < m] for a finite [d]. *)
Definition lt_ext (d : R) (m : ExtR) : bool :=
  match m with
  | PosInf => true
  | Finite x => if Rlt_dec d x then true else false
  end.

(** [str(n)] for a non-negative integer. *)
Definition string_of_nat (n : nat) : string :=
  NilZero.string_of_uint (Nat.to_uint n).

(** [round(x, 2)]: to the nearest multiple of [1/100], ties to the even one. *)
Definition round2 (x : R) : R :=
  let y := x * 100 in
  let f := Zfloor y in
  let frac := y - IZR f in
  let n := if Rlt_dec frac (1 / 2) then f
           else if Rlt_dec (1 / 2) frac then (f + 1)%Z
           else if Z.even f then f else (f + 1)%Z in
  IZR n / 100.

(** How a call ends: it returns, or it raises the named exception. *)
Inductive Outcome (A : Type) : Type :=
| Returned (a : A)
| Raised (exn : string).
Arguments Returned {A} a.
Arguments Raised {A} exn.

End Py.

(* ================================================================= *)
(** ** app/engine.py *)

Module Engine.
Import Utils Nx Py.

(** A row's [geometry] as [build_graph] distinguishes it by [geom_type]. *)
Inductive Geometry : Type :=
| GLineString (coords : LineString)
| GMultiLineString (geoms : list LineString)
| GOther.

(** The [GeoDataFrame] read from the GeoJSON file: its rows in order;
    [iterrows()] numbers them [0, 1, ...]. *)
Definition GeoDataFrame : Type := list Geometry.

Definition iterrows (df : GeoDataFrame) : list (nat * Geometry) :=
  combine (seq 0 (length df)) df.

(** [f"{feature_id}_{i}"] *)
Definition format_segment_id (feature_id i : nat) : string :=
  (string_of_nat feature_id ++ "_" ++ string_of_nat i)%string.

(** [coords[i]] *)
Definition coord_at (coords : list node) (i : nat) : node :=
  nth i coords (0, 0).

(** The attribute dictionary [_add_linestring_to_graph] passes to
    [add_edge] for the segment from [start] to [end_]. *)
Definition new_edge_data (start end_ : node) (feature_id i : nat) : EdgeData :=
  {| weight := haversine_distance (snd start) (fst start) (snd end_) (fst end_);
     geometry := [start; end_];
     segment_id := format_segment_id feature_id i;
     is_flooded := false |}.

(** One iteration of the loop of [_add_linestring_to_graph], on the graph
    and the counter [added]. *)
Definition add_segment (coords : list node) (feature_id : nat)
  (st : Graph * nat) (i : nat) : Graph * nat :=
  let start := coord_at coords i in
  let end_ := coord_at coords (i + 1) in
  (add_edge (fst st) start end_ (new_edge_data start end_ feature_id i),
   (snd st + 1)%nat).

(** [_add_linestring_to_graph(linestring, feature_id)] on [self.graph];
    returns the graph and [added]. *)
Definition _add_linestring_to_graph (g : Graph) (linestring : LineString)
  (feature_id : nat) : Graph * nat :=
  fold_left (add_segment linestring feature_id)
            (seq 0 (length linestring - 1)) (g, 0%nat).

(** One iteration of the loop over [iterrows()] in [build_graph], on the
    graph and [edge_count]. *)
Definition build_row (st : Graph * nat) (row : nat * Geometry) : Graph * nat :=
  let idx := fst row in
  match snd row with
  | GLineString coords =>
      let r := _add_linestring_to_graph (fst st) coords idx in
      (fst r, (snd st + snd r)%nat)
  | GMultiLineString geoms =>
      fold_left (fun acc line =>
                   let r := _add_linestring_to_graph (fst acc) line idx in
                   (fst r, (snd acc + snd r)%nat))
                geoms st
  | GOther => st
  end.

(** One iteration of the scan of [_find_nearest_node], on
    [(min_distance, nearest_node)]. *)
Definition nearest_step (lat lon : R) (st : ExtR * option node) (n : node)
  : ExtR * option node :=
  let node_lon := fst n in
  let node_lat := snd n in
  let distance := haversine_distance lat lon node_lat node_lon in
  if lt_ext distance (fst st) then (Finite distance, Some n) else st.

(** [_find_nearest_node(lat, lon)] over the nodes of [self.graph]. *)
Definition _find_nearest_node (g : Graph) (lat lon : R) : option node :=
  snd (fold_left (nearest_step lat lon) (nodes g) (PosInf, None)).

(** [_heuristic(node1, node2)] *)
Definition _heuristic (node1 node2 : node) : R :=
  let lon1 := fst node1 in
  let lat1 := snd node1 in
  let lon2 := fst node2 in
  let lat2 := snd node2 in
  haversine_distance lat1 lon1 lat2 lon2.

(** One iteration of the loop of [_calculate_path_length], on [total]. *)
Definition length_step (g : Graph) (path : list node) (total : R) (i : nat) : R :=
  match get_edge_data g (coord_at path i) (coord_at path (i + 1)) with
  | Some edge_data =>
      let weight0 := weight edge_data in
      let weight1 := if is_flooded edge_data then weight0 / 100 else weight0 in
      total + weight1
  | None => total
  end.

(** [_calculate_path_length(path)] *)
Definition _calculate_path_length (g : Graph) (path : list node) : R :=
  fold_left (length_step g path) (seq 0 (length path - 1)) 0.

(** One iteration of the loop of [_count_flooded_segments], on [count]. *)
Definition count_step (g : Graph) (path : list node) (count : nat) (i : nat) : nat :=
  match get_edge_data g (coord_at path i) (coord_at path (i + 1)) with
  | Some edge_data => if is_flooded edge_data then (count + 1)%nat else count
  | None => count
  end.

(** [_count_flooded_segments(path)] *)
Definition _count_flooded_segments (g : Graph) (path : list node) : nat :=
  fold_left (count_step g path) (seq 0 (length path - 1)) 0%nat.

(** The dictionaries [find_route] returns; a key the code leaves out is
    [None]. *)
Record LatLon : Type := mkLatLon { lat : R; lon : R }.

Record RouteProperties : Type := mkRouteProperties {
  distance_meters : R;
  nodes_count : nat;
  flooded_segments : nat
}.

Record RouteFeature : Type := mkRouteFeature {
  coordinates : list node;
  properties : RouteProperties
}.

Record RouteMetadata : Type := mkRouteMetadata {
  md_start : option LatLon;
  md_end : option LatLon;
  md_distance_meters : option R;
  status : string;
  message : option string
}.

Record RouteDict : Type := mkRouteDict {
  features : option (list RouteFeature);
  metadata : RouteMetadata
}.

(** The dictionary of the [except nx.NetworkXNoPath] branch. *)
Definition no_path_dict : RouteDict :=
  {| features := None;
     metadata := {| md_start := None; md_end := None;
                    md_distance_meters := None;
                    status := "error";
                    message := Some "Nie znaleziono trasy między punktami"%string |} |}.

(** The dictionary of the success branch. *)
Definition success_dict (g : Graph) (path : list node)
  (start_lat start_lon end_lat end_lon : R) : RouteDict :=
  let route_coords := map (fun p => (fst p, snd p)) path in
  let total_distance := _calculate_path_length g path in
  let flooded := _count_flooded_segments g path in
  {| features := Some [ {| coordinates := route_coords;
                           properties := {| distance_meters := round2 total_distance;
                                            nodes_count := length path;
                                            flooded_segments := flooded |} |} ];
     metadata := {| md_start := Some (mkLatLon start_lat start_lon);
                    md_end := Some (mkLatLon end_lat end_lon);
                    md_distance_meters := Some (round2 total_distance);
                    status := "success";
                    message := None |} |}.

Section Planner.

(** shapely's polygons and [edge_geom.intersects(flood_zone)]. *)
Variable Polygon : Type.
Variable intersects : LineString -> Polygon -> bool.

(** [nx.astar_path(G, source, target, heuristic=..., weight='weight')] *)
Variable astar_path : Graph -> node -> node -> (node -> node -> R) -> AstarOutcome.

(** The attributes of a [RoutePlanner]; [None] is Python's [None]. *)
Record RoutePlanner : Type := mkRoutePlanner {
  geojson_path : string;
  graph : option Graph;
  gdf : option GeoDataFrame;
  flood_zones : list Polygon
}.

(** [RoutePlanner(geojson_path)] *)
Definition init (path : string) : RoutePlanner :=
  {| geojson_path := path; graph := None; gdf := None; flood_zones := [] |}.

Definition set_graph (self : RoutePlanner) (g : option Graph) : RoutePlanner :=
  {| geojson_path := geojson_path self; graph := g; gdf := gdf self;
     flood_zones := flood_zones self |}.

(** [build_graph()]: the returned flag and the planner afterwards. *)
Definition build_graph (self : RoutePlanner) : bool * RoutePlanner :=
  match gdf self with
  | None => (false, self)
  | Some df =>
      let st := fold_left build_row (iterrows df) (empty_graph, 0%nat) in
      (true, set_graph self (Some (fst st)))
  end.

(** The body of the loop over [graph.edges(data=True)] in
    [_mark_flooded_edges]: the attribute dictionary afterwards.  A geometry
    is truthy when it is not empty; the inner loop stops at the first
    intersecting zone. *)
Definition mark_edge_data (zones : list Polygon) (data : EdgeData) : EdgeData :=
  match geometry data with
  | [] => data
  | _ :: _ =>
      if existsb (intersects (geometry data)) zones
      then {| weight := weight data * 100;
              geometry := geometry data;
              segment_id := segment_id data;
              is_flooded := true |}
      else data
  end.

Definition mark_edges (zones : list Polygon) (g : Graph) : Graph :=
  mkGraph (nodes g)
          (map (fun e => (fst e, mark_edge_data zones (snd e))) (edges g)).

(** [_mark_flooded_edges()] *)
Definition _mark_flooded_edges (self : RoutePlanner)
  : Outcome unit * RoutePlanner :=
  match flood_zones self with
  | [] => (Returned tt, self)
  | _ :: _ =>
      match graph self with
      | None => (Raised "AttributeError", self)
      | Some g => (Returned tt, set_graph self (Some (mark_edges (flood_zones self) g)))
      end
  end.

(** [set_flood_zones(flood_zones)] *)
Definition set_flood_zones (self : RoutePlanner) (zones : list Polygon)
  : Outcome unit * RoutePlanner :=
  _mark_flooded_edges
    {| geojson_path := geojson_path self; graph := graph self;
       gdf := gdf self; flood_zones := zones |}.

(** [find_route(start_lat, start_lon, end_lat, end_lon)]: the returned
    dictionary ([None] for Python's [None]) and the planner afterwards. *)
Definition find_route (self : RoutePlanner)
  (start_lat start_lon end_lat end_lon : R)
  : option RouteDict * RoutePlanner :=
  match graph self with
  | None => (None, self)
  | Some g =>
      match _find_nearest_node g start_lat start_lon,
            _find_nearest_node g end_lat end_lon with
      | Some start_node, Some end_node =>
          match astar_path g start_node end_node _heuristic with
          | AstarPath path =>
              (Some (success_dict g path start_lat start_lon end_lat end_lon), self)
          | NetworkXNoPath => (Some no_path_dict, self)
          | AstarRaised => (None, self)
          end
      | _, _ => (None, self)
      end
  end.

End Planner.

Arguments geojson_path {Polygon} _.
Arguments graph {Polygon} _.
Arguments gdf {Polygon} _.
Arguments flood_zones {Polygon} _.
Arguments mkRoutePlanner {Polygon} _ _ _ _.
Arguments init {Polygon} path.
Arguments set_graph {Polygon} self g.
Arguments build_graph {Polygon} self.
Arguments mark_edge_data {Polygon} intersects zones data.
Arguments mark_edges {Polygon} intersects zones g.
Arguments _mark_flooded_edges {Polygon} intersects self.
Arguments set_flood_zones {Polygon} intersects self zones.
Arguments find_route {Polygon} astar_path self _ _ _ _.

End Engine.

(* ================================================================= *)
(** ** Edge weights: base distance, the weighting invariant, route metrics *)

Module Weighting.
Import Utils Nx Py Engine.

(** The geodesic length of the segment an edge stands for, from the two
    points of its [geometry].  The code keeps no such attribute: it is what
    [weight] is set to when the edge is inserted. *)
Definition base_distance (d : EdgeData) : R :=
  match geometry d with
  | [start; end_] =>
      haversine_distance (snd start) (fst start) (snd end_) (fst end_)
  | _ => 0
  end.

(** An edge as [_add_linestring_to_graph] leaves it. *)
Definition fresh_data (d : EdgeData) : Prop :=
  is_flooded d = false /\ weight d = base_distance d /\
  exists a b, geometry d = [a; b].

(** The weighting invariant on one edge. *)
Definition weighted_data (d : EdgeData) : Prop :=
  (is_flooded d = false -> weight d = base_distance d) /\
  (is_flooded d = true -> weight d = base_distance d * 100).

Definition all_edges (P : EdgeData -> Prop) (g : Graph) : Prop :=
  Forall (fun e => P (snd e)) (edges g).

(** The sum of [f] over the edges a node list walks along; consecutive nodes
    without an edge contribute nothing. *)
Fixpoint sum_over_path (f : EdgeData -> R) (g : Graph) (path : list node) : R :=
  match path with
  | [] => 0
  | x :: rest =>
      match rest with
      | [] => 0
      | y :: _ =>
          match get_edge_data g x y with
          | Some d => f d
          | None => 0
          end + sum_over_path f g rest
      end
  end.

(** The true distance of a path: its edges' base distances added up. *)
Definition true_distance (g : Graph) (path : list node) : R :=
  sum_over_path base_distance g path.

(** The number of edges along a path whose [is_flooded] flag is set. *)
Fixpoint flooded_on_path (g : Graph) (path : list node) : nat :=
  match path with
  | [] => 0
  | x :: rest =>
      match rest with
      | [] => 0
      | y :: _ =>
          (match get_edge_data g x y with
           | Some d => if is_flooded d then 1 else 0
           | None => 0
           end + flooded_on_path g rest)%nat
      end
  end.

(** Whether the segment of an edge intersects some zone of [zones]: the
    test of the overlay's inner loop. *)
Definition hit {Polygon : Type} (intersects : LineString -> Polygon -> bool)
  (zones : list Polygon) (d : EdgeData) : bool :=
  existsb (intersects (geometry d)) zones.

(** "An edge is flagged and carries the penalised weight iff its segment
    intersects a zone of [zones]", for every edge of [g]. *)
Definition zones_decide_edges {Polygon : Type}
  (intersects : LineString -> Polygon -> bool) (zones : list Polygon)
  (g : Graph) : Prop :=
  forall u v d, get_edge_data g u v = Some d ->
    ((is_flooded d = true /\ weight d = base_distance d * 100)
     <-> hit intersects zones d = true).


(** What [_calculate_path_length] adds for an edge. *)
Definition restored_weight (d : EdgeData) : R :=
  if is_flooded d then weight d / 100 else weight d.

End Weighting.

(* ================================================================= *)
(** ** Line paths and segments of a row *)

Module Segments.
Import Utils Nx Py Engine.

(** A row geometry without a line path: no line geometry at all, or line
    geometries with fewer than two points. *)
Definition no_line_path (geom : Geometry) : Prop :=
  match geom with
  | GLineString coords => (length coords <= 1)%nat
  | GMultiLineString geoms => Forall (fun line => (length line <= 1)%nat) geoms
  | GOther => True
  end.

(** The two ends of segment [j] of part [k] of a multi-part feature. *)
Definition segment_of (geoms : list LineString) (k j : nat) : node * node :=
  (coord_at (nth k geoms []) j, coord_at (nth k geoms []) (j + 1)).

(** Part [k] exists and has a [j]-th segment. *)
Definition valid_segment (geoms : list LineString) (k j : nat) : Prop :=
  (k < length geoms)%nat /\ (j + 1 < length (nth k geoms []))%nat.

(** No segment the builder reaches after segment [j] of part [k] joins the
    same two nodes (a later [add_edge] on the pair would replace the
    attributes). *)
Definition written_last (geoms : list LineString) (k j : nat) : Prop :=
  forall k' j',
    valid_segment geoms k' j' ->
    (k < k' \/ (k = k' /\ j < j'))%nat ->
    same_edge (fst (segment_of geoms k' j')) (snd (segment_of geoms k' j'))
              (fst (segment_of geoms k j)) (snd (segment_of geoms k j)) = false.

(** The [add_edge] calls of one part, in order. *)
Definition part_insertions (idx : nat) (line : LineString)
  : list (node * node * EdgeData) :=
  map (fun j => (coord_at line j, coord_at line (j + 1),
                 new_edge_data (coord_at line j) (coord_at line (j + 1)) idx j))
      (seq 0 (length line - 1)).

(** A run of [add_edge] calls on a graph. *)
Definition insert_all (ins : list (node * node * EdgeData)) (g : Graph) : Graph :=
  fold_left (fun g e => add_edge g (fst (fst e)) (snd (fst e)) (snd e)) ins g.

End Segments.

(* ================================================================= *)
(** ** The scan of the nearest-node locator *)

Module Locator.
Import Utils Nx Py Engine.

(** The distance [_find_nearest_node] computes for node [n]. *)
Definition query_distance (lat lon : R) (n : node) : R :=
  haversine_distance lat lon (snd n) (fst n).

(** What the scan holds after it has seen the nodes [seen]. *)
Definition scan_state (lat lon : R) (seen : list node)
  (st : ExtR * option node) : Prop :=
  match snd st with
  | None => seen = [] /\ fst st = PosInf
  | Some n =>
      fst st = Finite (query_distance lat lon n) /\
      exists l1 l2, seen = l1 ++ n :: l2 /\
        (forall x, In x l1 -> query_distance lat lon n < query_distance lat lon x) /\
        (forall x, In x l2 -> query_distance lat lon n <= query_distance lat lon x)
  end.

End Locator.

(* ================================================================= *)
(** ** What is assumed of networkx *)

Module NxContract.
Import Nx.

(** What the networkx documentation of [astar_path] promises about failure:
    "Raises NetworkXNoPath if no path exists between source and target". *)
Definition raises_no_path_when_disconnected
  (astar_path : Graph -> node -> node -> (node -> node -> R) -> AstarOutcome)
  : Prop :=
  forall g s t h,
    In s (nodes g) -> In t (nodes g) -> ~ connected g s t ->
    astar_path g s t h = NetworkXNoPath.

End NxContract.

(* ================================================================= *)
(** ** Example maps and zones *)

Module Scenario.
Import Utils Nx Py Engine.

(** Rectangular hazard zones (shapely's [box(minx, miny, maxx, maxy)]) with
    the geometric meaning of [intersects]: the line and the closed
    rectangle share a point. *)
Record Box : Type := mkBox { minx : R; miny : R; maxx : R; maxy : R }.

Definition point_on (a b : node) (t : R) : node :=
  (fst a + t * (fst b - fst a), snd a + t * (snd b - snd a)).

Definition in_box (p : node) (z : Box) : Prop :=
  minx z <= fst p <= maxx z /\ miny z <= snd p <= maxy z.

Fixpoint meets (l : LineString) (z : Box) : Prop :=
  match l with
  | [] => False
  | a :: rest =>
      match rest with
      | [] => False
      | b :: _ =>
          (exists t, 0 <= t <= 1 /\ in_box (point_on a b t) z) \/ meets rest z
      end
  end.

Definition box_intersects (l : LineString) (z : Box) : bool :=
  if excluded_middle_informative (meets l z) then true else false.

(** A search that meets what networkx documents for [astar_path]: it returns
    a walk from source to target when there is one and raises
    [NetworkXNoPath] otherwise. *)
Definition oracle_astar (g : Graph) (s t : node) (h : node -> node -> R)
  : AstarOutcome :=
  match excluded_middle_informative (connected g s t) with
  | left H => AstarPath (proj1_sig (constructive_indefinite_description _ H))
  | right _ => NetworkXNoPath
  end.

(** The road map of [tests/test_engine.py]: the direct road from A to B and
    the detour over C. *)
Definition A : node := (16.90, 52.40).
Definition B : node := (16.92, 52.40).
Definition C : node := (16.91, 52.41).

Definition test_map : GeoDataFrame :=
  [GLineString [A; B]; GLineString [A; C]; GLineString [C; B]].

(** The hazard polygon of [test_avoid_flood_zone], across the direct road. *)
Definition flood_poly : Box := mkBox 16.905 52.399 16.915 52.401.

(** A zone away from every road of the map. *)
Definition far_poly : Box := mkBox 17 53 17.1 53.1.

Definition planner_of (df : GeoDataFrame) : RoutePlanner Box :=
  {| geojson_path := "tests/temp_data/test_map.geojson"; graph := None;
     gdf := Some df; flood_zones := [] |}.

(** The graph [build_graph] makes of [test_map]. *)
Definition test_graph : Graph :=
  {| nodes := [A; B; C];
     edges := [ (A, B, new_edge_data A B 0 0);
                (A, C, new_edge_data A C 1 0);
                (C, B, new_edge_data C B 2 0) ] |}.

(** A map with the direct road only. *)
Definition direct_map : GeoDataFrame := [GLineString [A; B]].

Definition direct_graph : Graph :=
  {| nodes := [A; B]; edges := [ (A, B, new_edge_data A B 0 0) ] |}.

(** Two roads that do not meet. *)
Definition D : node := (16.93, 52.41).
Definition split_map : GeoDataFrame := [GLineString [A; B]; GLineString [C; D]].

Definition split_graph : Graph :=
  {| nodes := [A; B; C; D];
     edges := [ (A, B, new_edge_data A B 0 0);
                (C, D, new_edge_data C D 1 0) ] |}.

(** One feature of two parts of two segments each. *)
Definition two_paths : list LineString := [[A; B; C]; [C; D; A]].

(** The attributes [d] with the flag set and the weight [w]. *)
Definition flooded (d : EdgeData) (w : R) : EdgeData :=
  {| weight := w; geometry := geometry d; segment_id := segment_id d;
     is_flooded := true |}.

(** The length of the direct road. *)
Definition dist_AB : R := haversine_distance 52.40 16.90 52.40 16.92.

(** The test map after one overlay pass with the test polygon, and after
    two. *)
Definition test_graph_once : Graph :=
  {| nodes := [A; B; C];
     edges := [ (A, B, flooded (new_edge_data A B 0 0) (dist_AB * 100));
                (A, C, new_edge_data A C 1 0);
                (C, B, new_edge_data C B 2 0) ] |}.

Definition test_graph_twice : Graph :=
  {| nodes := [A; B; C];
     edges := [ (A, B, flooded (new_edge_data A B 0 0) (dist_AB * 100 * 100));
                (A, C, new_edge_data A C 1 0);
                (C, B, new_edge_data C B 2 0) ] |}.

(** The direct road alone after two overlay passes with the test polygon. *)
Definition direct_graph_twice : Graph :=
  {| nodes := [A; B];
     edges := [ (A, B, flooded (new_edge_data A B 0 0) (dist_AB * 100 * 100)) ] |}.

(** A search result for the route from A to B in [direct_graph_twice]: the
    one path without a repeated node. *)
Definition direct_search (g : Graph) (s t : node) (h : node -> node -> R)
  : AstarOutcome :=
  AstarPath [A; B].

End Scenario.

(* ================================================================= *)
(** ** The insertions of the builder and runs of overlays *)

Module Build.
Import Utils Nx Py Engine Weighting Segments.

(** The [add_edge] calls of one row of the data frame, in order. *)
Definition row_insertions (row : nat * Geometry) : list (node * node * EdgeData) :=
  match snd row with
  | GLineString coords => part_insertions (fst row) coords
  | GMultiLineString geoms => concat (map (part_insertions (fst row)) geoms)
  | GOther => []
  end.

(** The [add_edge] calls of [build_graph] on a data frame, in order. *)
Definition graph_insertions (df : GeoDataFrame) : list (node * node * EdgeData) :=
  concat (map row_insertions (iterrows df)).

(** The attributes of the last call of a run of [add_edge] calls that joins
    [u] and [v], in either direction; [start] when there is none. *)
Definition last_write (ins : list (node * node * EdgeData)) (u v : node)
  (start : option EdgeData) : option EdgeData :=
  fold_left (fun acc e =>
               if same_edge u v (fst (fst e)) (snd (fst e)) then Some (snd e) else acc)
            ins start.

(** A graph as networkx keeps it: no node twice, the ends of every edge
    among the nodes, one entry per unordered pair, and the [geometry] of an
    edge running between its two ends. *)
Fixpoint distinct_pairs (es : list (node * node * EdgeData)) : Prop :=
  match es with
  | [] => True
  | e :: rest =>
      Forall (fun e' => same_edge (fst (fst e')) (snd (fst e'))
                                  (fst (fst e)) (snd (fst e)) = false) rest /\
      distinct_pairs rest
  end.

Definition spans (e : node * node * EdgeData) : Prop :=
  geometry (snd e) = [fst (fst e); snd (fst e)] \/
  geometry (snd e) = [snd (fst e); fst (fst e)].

Definition well_formed (g : Graph) : Prop :=
  NoDup (nodes g) /\
  (forall e, In e (edges g) ->
     In (fst (fst e)) (nodes g) /\ In (snd (fst e)) (nodes g)) /\
  distinct_pairs (edges g) /\
  Forall spans (edges g).

End Build.

Module Overlays.
Import Utils Nx Py Engine Weighting.

(** How many of the zone lists [zs] have a zone the segment of [d]
    intersects. *)
Definition hits {Polygon : Type} (intersects : LineString -> Polygon -> bool)
  (zs : list (list Polygon)) (d : EdgeData) : nat :=
  length (filter (fun zones => hit intersects zones d) zs).

(** [set_flood_zones] called with each list of [zs] in turn; an exception
    ends a call, not the run. *)
Definition set_flood_zones_all {Polygon : Type}
  (intersects : LineString -> Polygon -> bool)
  (self : RoutePlanner Polygon) (zs : list (list Polygon)) : RoutePlanner Polygon :=
  fold_left (fun s zones => snd (set_flood_zones intersects s zones)) zs self.

(** The attribute dictionary of an edge after the overlay passes of [zs]. *)
Definition marked {Polygon : Type} (intersects : LineString -> Polygon -> bool)
  (zs : list (list Polygon)) (d : EdgeData) : EdgeData :=
  fold_left (fun d zones => mark_edge_data intersects zones d) zs d.

(** The graph after the overlay passes of [zs]. *)
Definition overlay_all {Polygon : Type} (intersects : LineString -> Polygon -> bool)
  (zs : list (list Polygon)) (g : Graph) : Graph :=
  fold_left (fun g zones => mark_edges intersects zones g) zs g.

(** The graph [build_graph] makes of a data frame. *)
Definition built (df : GeoDataFrame) : Graph :=
  fst (fold_left build_row (iterrows df) (empty_graph, 0%nat)).

End Overlays.

(* ================================================================= *)
(** ** Coordinate validation, the start-up and the request handlers *)

Module Validation.
Import Stdlib.Strings.Ascii.
Import Utils Nx Py Engine.

(** A Python [str] whose characters are below U+0100 is a string here,
    character by character.  [str.isspace] on such a character: the
    controls 9 to 13 and 28 to 31, the space, U+0085 and U+00A0. *)
Definition is_space (c : Ascii.ascii) : bool :=
  let n := Ascii.nat_of_ascii c in
  ((9 <=? n)%nat && (n <=? 13)%nat) || ((28 <=? n)%nat && (n <=? 32)%nat)
  || (n =? 133)%nat || (n =? 160)%nat.

Fixpoint lstrip (s : string) : string :=
  match s with
  | EmptyString => EmptyString
  | String c rest => if is_space c then lstrip rest else s
  end.

Fixpoint rstrip (s : string) : string :=
  match s with
  | EmptyString => EmptyString
  | String c rest =>
      match rstrip rest with
      | EmptyString => if is_space c then EmptyString else String c EmptyString
      | String c' rest' => String c (String c' rest')
      end
  end.

(** [s.strip()] *)
Definition strip (s : string) : string := rstrip (lstrip s).

(** [s.split(sep)] for a separator of one character: the pieces between
    the separators, one more than there are separators. *)
Fixpoint split (sep : Ascii.ascii) (s : string) : list string :=
  match s with
  | EmptyString => [EmptyString]
  | String c rest =>
      if Ascii.eqb c sep then EmptyString :: split sep rest
      else match split sep rest with
           | [] => [String c EmptyString]
           | part :: parts => String c part :: parts
           end
  end.

(** A Python float: a finite value, an infinity or a NaN. *)
Inductive PyFloat : Type :=
| Fin (x : R)
| Inf
| NegInf
| NaN.

(** What the inner [ValueError] of [validate_coordinates] was raised for:
    the number of parts, [float()] on one of them, or a range check with
    the float it refused. *)
Inductive Cause : Type :=
| WrongFormat
| NotAFloat (part : string)
| LatitudeOutOfRange (lat : PyFloat)
| LongitudeOutOfRange (lon : PyFloat).

(** How [validate_coordinates] ends: the tuple [(lat, lon)], or the
    [ValueError] of its first [except] clause, whose message quotes the
    argument and the inner error. *)
Inductive Validated : Type :=
| Coordinates (lat lon : R)
| ValueError (coord_string : string) (cause : Cause).

Section Validate.

(** Python's [float(s)]; [None] when it raises [ValueError]. *)
Variable float : string -> option PyFloat.

(** [validate_coordinates(coord_string)].  A chained comparison with an
    infinity or a NaN is false, so only finite floats pass the checks. *)
Definition validate_coordinates (coord_string : string) : Validated :=
  let parts := split ","%char (strip coord_string) in
  match parts with
  | [part0; part1] =>
      match float (strip part0) with
      | None => ValueError coord_string (NotAFloat (strip part0))
      | Some lat =>
          match float (strip part1) with
          | None => ValueError coord_string (NotAFloat (strip part1))
          | Some lon =>
              match lat with
              | Fin x =>
                  if Rle_dec (-90) x then
                    if Rle_dec x 90 then
                      match lon with
                      | Fin y =>
                          if Rle_dec (-180) y then
                            if Rle_dec y 180 then Coordinates x y
                            else ValueError coord_string (LongitudeOutOfRange lon)
                          else ValueError coord_string (LongitudeOutOfRange lon)
                      | _ => ValueError coord_string (LongitudeOutOfRange lon)
                      end
                    else ValueError coord_string (LatitudeOutOfRange lat)
                  else ValueError coord_string (LatitudeOutOfRange lat)
              | _ => ValueError coord_string (LatitudeOutOfRange lat)
              end
          end
      end
  | _ => ValueError coord_string WrongFormat
  end.

End Validate.

(** The number of occurrences of a character. *)
Fixpoint count_char (c : Ascii.ascii) (s : string) : nat :=
  match s with
  | EmptyString => 0
  | String c' rest => ((if Ascii.eqb c' c then 1 else 0) + count_char c rest)%nat
  end.

(** [sep.join(parts)] *)
Fixpoint join (sep : Ascii.ascii) (parts : list string) : string :=
  match parts with
  | [] => EmptyString
  | [part] => part
  | part :: rest => (part ++ String sep (join sep rest))%string
  end.

(** A string of whitespace only. *)
Fixpoint all_space (s : string) : bool :=
  match s with
  | EmptyString => true
  | String c rest => is_space c && all_space rest
  end.

End Validation.

Module NxWalks.
Import Utils Nx.

(** What networkx documents for a returned path: a walk along edges of
    the graph from the source to the target. *)
Definition returns_walks
  (astar_path : Graph -> node -> node -> (node -> node -> R) -> AstarOutcome)
  : Prop :=
  forall g s t h p, astar_path g s t h = AstarPath p -> is_path g s t p.

End NxWalks.

Module Api.
Import Utils Nx Py Engine Validation.

(** The JSON body of a response of the route endpoint. *)
Inductive Body : Type :=
| ErrorBody (error : string)
| ValueErrorBody (coord_string : string) (cause : Cause)
| RouteBody (result : RouteDict).

(** The body of [health_check]. *)
Record Health : Type := mkHealth {
  health_status : string;
  health_nodes_count : nat;
  flood_zones_active : nat
}.

Section App.
Variable Polygon : Type.
Variable intersects : LineString -> Polygon -> bool.
Variable astar_path : Graph -> node -> node -> (node -> node -> R) -> AstarOutcome.
Variable float : string -> option PyFloat.

(** [os.path.exists], [gpd.read_file] and
    [FloodService().get_flood_polygons()] as the start-up finds them. *)
Variable path_exists : string -> bool.
Variable read_file : string -> Outcome GeoDataFrame.
Variable get_flood_polygons : Outcome (list Polygon).

(** [load_road_network()]: the returned flag and the planner afterwards. *)
Definition load_road_network (self : RoutePlanner Polygon)
  : bool * RoutePlanner Polygon :=
  match read_file (geojson_path self) with
  | Returned df =>
      (true, {| geojson_path := geojson_path self; graph := graph self;
                gdf := Some df; flood_zones := flood_zones self |})
  | Raised _ => (false, self)
  end.

(** [initialize_app()]: the module's [planner] afterwards. *)
Definition initialize_app : option (RoutePlanner Polygon) :=
  let geojson_path := "data/map_data.geojson"%string in
  if negb (path_exists geojson_path) then None
  else
    let planner := init geojson_path in
    let (loaded, planner) := load_road_network planner in
    if loaded then
      let (built, planner) := build_graph planner in
      if built then
        match get_flood_polygons with
        | Returned flood_zones =>
            Some (snd (set_flood_zones intersects planner flood_zones))
        | Raised _ => Some planner
        end
      else Some planner
    else Some planner.

(** The ['status'] of [index()]: a graph is truthy when it has a node. *)
Definition index (planner : option (RoutePlanner Polygon)) : string :=
  match planner with
  | Some p =>
      match graph p with
      | Some g => match nodes g with [] => "error" | _ :: _ => "running" end
      | None => "error"
      end
  | None => "error"
  end.

(** [health_check()]: the body and the status code. *)
Definition health_check (planner : option (RoutePlanner Polygon)) : Health * nat :=
  match planner with
  | Some p =>
      match graph p with
      | Some g =>
          ({| health_status := "healthy"; health_nodes_count := length (nodes g);
              flood_zones_active := length (flood_zones p) |}, 200%nat)
      | None =>
          ({| health_status := "unhealthy"; health_nodes_count := 0;
              flood_zones_active := 0 |}, 503%nat)
      end
  | None =>
      ({| health_status := "unhealthy"; health_nodes_count := 0;
          flood_zones_active := 0 |}, 503%nat)
  end.

(** [not param] for what [request.args.get] returns. *)
Definition missing (param : option string) : bool :=
  match param with
  | None => true
  | Some EmptyString => true
  | Some (String _ _) => false
  end.

(** [get_evacuation_route()] on the query parameters [start] and [end]:
    the body and the status code.  [find_route] leaves the planner as it
    was. *)
Definition get_evacuation_route (planner : option (RoutePlanner Polygon))
  (start_param end_param : option string) : Body * nat :=
  match planner with
  | None => (ErrorBody "Serwer nie jest gotowy (brak mapy)", 503%nat)
  | Some p =>
      match graph p with
      | None => (ErrorBody "Serwer nie jest gotowy (brak mapy)", 503%nat)
      | Some _ =>
          match start_param, end_param with
          | Some start_string, Some end_string =>
              if missing start_param || missing end_param
              then (ErrorBody "Brak parametrów start/end", 400%nat)
              else
                match validate_coordinates float start_string with
                | ValueError s c => (ValueErrorBody s c, 400%nat)
                | Coordinates start_lat start_lon =>
                    match validate_coordinates float end_string with
                    | ValueError s c => (ValueErrorBody s c, 400%nat)
                    | Coordinates end_lat end_lon =>
                        match fst (find_route astar_path p
                                     start_lat start_lon end_lat end_lon) with
                        | None => (ErrorBody "Błąd obliczeń", 500%nat)
                        | Some result =>
                            if String.eqb (status (metadata result)) "error"
                            then (RouteBody result, 404%nat)
                            else (RouteBody result, 200%nat)
                        end
                    end
                end
          | _, _ => (ErrorBody "Brak parametrów start/end", 400%nat)
          end
      end
  end.

End App.

Arguments load_road_network {Polygon} read_file self.
Arguments initialize_app {Polygon} intersects path_exists read_file get_flood_polygons.
Arguments index {Polygon} planner.
Arguments health_check {Polygon} planner.
Arguments get_evacuation_route {Polygon} astar_path float planner start_param end_param.

End Api.

Module Requests.
Import Utils Nx Py Engine Scenario Validation Api.

(** A map that gives the road between A and B twice, once in each
    direction. *)
Definition doubled_map : GeoDataFrame := [GLineString [A; B]; GLineString [B; A]].

(** A road whose line repeats its first point. *)
Definition looped_map : GeoDataFrame := [GLineString [A; A; B]].

(** [float] on the coordinate texts of the test map. *)
Definition float_of_text (s : string) : option PyFloat :=
  if String.eqb s "52.40" then Some (Fin 52.40)
  else if String.eqb s "16.90" then Some (Fin 16.90)
  else if String.eqb s "16.92" then Some (Fin 16.92)
  else None.



End Requests.

(* ================================================================= *)
(** ** The distance and the locator in binary64 arithmetic *)

Module Binary64.
Import PrimFloat.
Import Py.

Local Set Warnings "-inexact-float".

(** [math.pi / 180.0], the factor of [math.radians]. *)
Definition deg_to_rad : float := 0x1.1df46a2529d39p-6%float.

(** [math.radians(x)] *)
Definition radians (x : float) : float := (x * deg_to_rad)%float.

(** [math.sqrt(x)]: [ValueError] (math domain error) on a negative
    argument. *)
Definition math_sqrt (x : float) : Outcome float :=
  if (x <? 0)%float then Raised "ValueError" else Returned (sqrt x).

(** A node key [(lon, lat)]. *)
Definition node : Type := (float * float)%type.

Section Libm.

(** The C library's [sin], [cos], [pow] and [atan2], which [math.sin],
    [math.cos], [**] and [math.atan2] call, on finite arguments. *)
Variables sin cos : float -> float.
Variable pow : float -> float -> float.
Variable atan2 : float -> float -> float.

(** The term [a] of [haversine_distance]. *)
Definition haversine_a (lat1 lon1 lat2 lon2 : float) : float :=
  let phi1 := radians lat1 in
  let phi2 := radians lat2 in
  let delta_phi := radians (lat2 - lat1) in
  let delta_lambda := radians (lon2 - lon1) in
  (pow (sin (delta_phi / 2)) 2
   + cos phi1 * cos phi2 * pow (sin (delta_lambda / 2)) 2)%float.

(** [haversine_distance(lat1, lon1, lat2, lon2)]: the distance, or the
    exception of one of the two square roots. *)
Definition haversine_distance (lat1 lon1 lat2 lon2 : float) : Outcome float :=
  let a := haversine_a lat1 lon1 lat2 lon2 in
  match math_sqrt a with
  | Raised exn => Raised exn
  | Returned root_a =>
      match math_sqrt (1 - a)%float with
      | Raised exn => Raised exn
      | Returned root_1_a =>
          let c := (2 * atan2 root_a root_1_a)%float in
          Returned (6371000 * c)%float
      end
  end.

(** One iteration of the loop of [_find_nearest_node], on
    [(min_distance, nearest_node)]; an exception of the distance ends the
    loop. *)
Definition nearest_step (lat lon : float)
  (st : Outcome (float * option node)) (n : node)
  : Outcome (float * option node) :=
  match st with
  | Raised exn => Raised exn
  | Returned (min_distance, nearest_node) =>
      let node_lon := fst n in
      let node_lat := snd n in
      match haversine_distance lat lon node_lat node_lon with
      | Raised exn => Raised exn
      | Returned distance =>
          if (distance <? min_distance)%float
          then Returned (distance, Some n)
          else Returned (min_distance, nearest_node)
      end
  end.

(** [_find_nearest_node(lat, lon)] over the nodes of the graph in their
    order. *)
Definition _find_nearest_node (nodes : list node) (lat lon : float)
  : Outcome (option node) :=
  match fold_left (nearest_step lat lon) nodes (Returned (infinity, None)) with
  | Raised exn => Raised exn
  | Returned (_, nearest_node) => Returned nearest_node
  end.

End Libm.

(** [data['weight'] * 100] of [_mark_flooded_edges] and [weight / 100] of
    [_calculate_path_length]. *)
Definition penalised (weight : float) : float := (weight * 100)%float.
Definition restored (weight : float) : float := (weight / 100)%float.

(** A node in Poland and the query at its antipode. *)
Definition far_node : node := (16.9, 52.485)%float.
Definition far_lat : float := (-52.485)%float.
Definition far_lon : float := (-163.1)%float.

(** What the C library returns at the arguments that this query and this
    node lead to: the sine of half the latitude difference, its square,
    the cosines of the two latitudes, and the sine of a quarter turn. *)
Definition libm_at_far_node (sin cos : float -> float)
  (pow : float -> float -> float) : Prop :=
  sin 0x1.d502ad9d5a8fdp-1%float = 0x1.961d841d1a037p-1%float /\
  pow 0x1.961d841d1a037p-1%float 2%float = 0x1.4220d139c0a47p-1%float /\
  cos (-0x1.d502ad9d5a8fdp-1)%float = 0x1.37cacc8284447p-1%float /\
  cos 0x1.d502ad9d5a8fdp-1%float = 0x1.37cacc8284447p-1%float /\
  sin 0x1.921fb54442d18p+0%float = 1%float /\
  pow 1%float 2%float = 1%float.

(** Functions with these values, and 0 elsewhere. *)
Definition sin_at (x : float) : float :=
  if (x =? 0x1.d502ad9d5a8fdp-1)%float then 0x1.961d841d1a037p-1%float
  else if (x =? 0x1.921fb54442d18p+0)%float then 1%float
  else 0%float.

Definition cos_at (x : float) : float :=
  if (abs x =? 0x1.d502ad9d5a8fdp-1)%float then 0x1.37cacc8284447p-1%float
  else 0%float.

Definition pow_at (x y : float) : float :=
  if (x =? 0x1.961d841d1a037p-1)%float then 0x1.4220d139c0a47p-1%float
  else if (x =? 1)%float then 1%float
  else 0%float.

(** The length of an edge whose weight does not survive the overlay's
    multiplication and the path length's division. *)
Definition uneven_weight : float := 1356.9650000000001%float.

End Binary64.

(* ================================================================= *)
(** ** Properties of the haversine distance *)

Module UtilsFacts.
Import Utils.

(** Machin's series gives PI to two decimals. *)
Lemma PI_bounds : 3.13 < PI < 3.15.
Proof.
  pose proof (PI_2_3_7_ineq 0) as H0.
  pose proof (PI_2_3_7_ineq 1) as H1.
  destruct H0 as [H0 _]. destruct H1 as [_ H1].
  unfold sum_f_R0, tg_alt, PI_2_3_7_tg, Ratan_seq in H0, H1.
  simpl in H0, H1.
  split; lra.
Qed.

Lemma atan2_0_1 : atan2 0 1 = 0.
Proof.
  unfold atan2. destruct (Rlt_dec 0 1) as [_ | H]; [| lra].
  replace (0 / 1) with 0 by field. apply atan_0.
Qed.

Lemma haversine_a_same (lat lon : R) : haversine_a lat lon lat lon = 0.
Proof.
  unfold haversine_a, radians.
  replace ((lat - lat) * (PI / 180) / 2) with 0 by field.
  replace ((lon - lon) * (PI / 180) / 2) with 0 by field.
  rewrite sin_0. ring.
Qed.

Lemma haversine_a_sym (lat1 lon1 lat2 lon2 : R) :
  haversine_a lat1 lon1 lat2 lon2 = haversine_a lat2 lon2 lat1 lon1.
Proof.
  unfold haversine_a, radians.
  replace ((lat1 - lat2) * (PI / 180) / 2) with (- ((lat2 - lat1) * (PI / 180) / 2)) by field.
  replace ((lon1 - lon2) * (PI / 180) / 2) with (- ((lon2 - lon1) * (PI / 180) / 2)) by field.
  rewrite !sin_neg. ring.
Qed.

Lemma sin_half_sq (x : R) : sin (x / 2) ^ 2 = (1 - cos x) / 2.
Proof.
  replace x with (2 * (x / 2)) at 2 by field.
  rewrite cos_2a_sin. field.
Qed.

(** The haversine term is the half of [1 - cos] of the central angle, hence
    in [[0, 1]]: both square roots of [haversine_distance] are defined. *)
Lemma haversine_a_range (lat1 lon1 lat2 lon2 : R) :
  0 <= haversine_a lat1 lon1 lat2 lon2 <= 1.
Proof.
  unfold haversine_a, radians.
  rewrite !sin_half_sq.
  replace ((lat2 - lat1) * (PI / 180)) with (lat2 * (PI / 180) - lat1 * (PI / 180)) by ring.
  rewrite cos_minus.
  set (p1 := lat1 * (PI / 180)). set (p2 := lat2 * (PI / 180)).
  set (k := cos ((lon2 - lon1) * (PI / 180))).
  pose proof (sin2_cos2 p1) as E1. pose proof (sin2_cos2 p2) as E2.
  unfold Rsqr in E1, E2.
  assert (Hk : -1 <= k <= 1) by apply COS_bound.
  set (s1 := sin p1) in *. set (c1 := cos p1) in *.
  set (s2 := sin p2) in *. set (c2 := cos p2) in *.
  assert (Hq : (s1 * s2 + c1 * c2 * k) ^ 2 <= 1).
  { assert (Hk2 : k * k <= 1) by nra.
    assert (Hc : (s1 * s2 + c1 * c2 * k) ^ 2
                 + (s1 * c2 * k - c1 * s2) ^ 2
                 = (s1 * s1 + c1 * c1) * (s2 * s2 + c2 * c2 * (k * k))) by ring.
    rewrite E1 in Hc.
    assert (0 <= (s1 * c2 * k - c1 * s2) ^ 2) by (apply pow2_ge_0).
    assert (c2 * c2 * (k * k) <= c2 * c2) by nra.
    lra. }
  assert (Hs : -1 <= s1 * s2 + c1 * c2 * k <= 1) by nra.
  split; nra.
Qed.

Lemma atan2_sin_cos (x : R) :
  - (PI / 2) < x < PI / 2 -> atan2 (sin x) (cos x) = x.
Proof.
  intros Hx. unfold atan2.
  assert (Hc : 0 < cos x) by (apply cos_gt_0; lra).
  destruct (Rlt_dec 0 (cos x)) as [_ | H]; [| contradiction].
  change (sin x / cos x) with (tan x). now apply atan_tan.
Qed.

Lemma haversine_a_meridian (lat lon : R) :
  haversine_a lat lon (lat + 1) lon = sin (PI / 360) ^ 2.
Proof.
  unfold haversine_a, radians.
  replace ((lat + 1 - lat) * (PI / 180) / 2) with (PI / 360) by field.
  replace ((lon - lon) * (PI / 180) / 2) with 0 by field.
  rewrite sin_0. ring.
Qed.

Lemma haversine_one_degree (lat lon : R) :
  haversine_distance lat lon (lat + 1) lon = 6371000 * (PI / 180).
Proof.
  pose proof PI_bounds as HPI.
  unfold haversine_distance. cbv zeta.
  rewrite haversine_a_meridian.
  assert (Hs : 0 <= sin (PI / 360)) by (apply sin_ge_0; lra).
  assert (Hc : 0 < cos (PI / 360)) by (apply cos_gt_0; lra).
  replace (1 - sin (PI / 360) ^ 2) with (cos (PI / 360) ^ 2).
  2:{ pose proof (sin2_cos2 (PI / 360)) as E. unfold Rsqr in E. nra. }
  rewrite !sqrt_pow2 by lra.
  rewrite atan2_sin_cos by lra.
  field.
Qed.

Lemma haversine_distance_same (lat lon : R) :
  haversine_distance lat lon lat lon = 0.
Proof.
  unfold haversine_distance. cbv zeta.
  rewrite haversine_a_same.
  replace (1 - 0) with 1 by ring.
  rewrite sqrt_0, sqrt_1, atan2_0_1. ring.
Qed.

Lemma haversine_distance_sym (lat1 lon1 lat2 lon2 : R) :
  haversine_distance lat1 lon1 lat2 lon2 = haversine_distance lat2 lon2 lat1 lon1.
Proof.
  unfold haversine_distance. now rewrite (haversine_a_sym lat1 lon1 lat2 lon2).
Qed.

Lemma atan2_nonneg (y x : R) : 0 <= y -> 0 <= x -> 0 <= atan2 y x.
Proof.
  intros Hy Hx. unfold atan2.
  destruct (Rlt_dec 0 x) as [Hpos | Hn].
  - rewrite <- atan_0. destruct Hy as [Hy | <-].
    + left. apply atan_increasing. now apply Rdiv_lt_0_compat.
    + right. f_equal. field. lra.
  - destruct (Rlt_dec x 0); [lra |].
    pose proof PI_bounds.
    destruct (Rlt_dec 0 y); [lra |]. destruct (Rlt_dec y 0); lra.
Qed.

Lemma atan2_pos (y x : R) : 0 < y -> 0 <= x -> 0 < atan2 y x.
Proof.
  intros Hy Hx. unfold atan2.
  destruct (Rlt_dec 0 x) as [Hpos | Hn].
  - rewrite <- atan_0. apply atan_increasing. now apply Rdiv_lt_0_compat.
  - destruct (Rlt_dec x 0); [lra |].
    pose proof PI_bounds.
    destruct (Rlt_dec 0 y); lra.
Qed.

Lemma haversine_distance_nonneg (lat1 lon1 lat2 lon2 : R) :
  0 <= haversine_distance lat1 lon1 lat2 lon2.
Proof.
  unfold haversine_distance. cbv zeta.
  pose proof (atan2_nonneg _ _ (sqrt_pos (haversine_a lat1 lon1 lat2 lon2))
                (sqrt_pos (1 - haversine_a lat1 lon1 lat2 lon2))).
  nra.
Qed.

Lemma haversine_distance_pos (lat1 lon1 lat2 lon2 : R) :
  0 < haversine_a lat1 lon1 lat2 lon2 ->
  0 < haversine_distance lat1 lon1 lat2 lon2.
Proof.
  intros Ha. unfold haversine_distance. cbv zeta.
  pose proof (atan2_pos _ _ (sqrt_lt_R0 _ Ha)
                (sqrt_pos (1 - haversine_a lat1 lon1 lat2 lon2))).
  nra.
Qed.

(** Two points on different latitudes are a positive distance apart. *)
Lemma haversine_pos_lat (lat1 lon1 lat2 lon2 : R) :
  -90 <= lat1 <= 90 -> -90 <= lat2 <= 90 -> lat1 <> lat2 ->
  0 < haversine_distance lat1 lon1 lat2 lon2.
Proof.
  intros H1 H2 Hne. apply haversine_distance_pos.
  unfold haversine_a, radians. pose proof PI_bounds as HPI.
  assert (Hc1 : 0 <= cos (lat1 * (PI / 180))) by (apply cos_ge_0; nra).
  assert (Hc2 : 0 <= cos (lat2 * (PI / 180))) by (apply cos_ge_0; nra).
  assert (Hs : sin ((lat2 - lat1) * (PI / 180) / 2) <> 0).
  { destruct (Rlt_dec lat1 lat2).
    - apply Rgt_not_eq. apply sin_gt_0; nra.
    - apply Rlt_not_eq.
      replace ((lat2 - lat1) * (PI / 180) / 2)
        with (- ((lat1 - lat2) * (PI / 180) / 2)) by field.
      rewrite sin_neg.
      assert (0 < sin ((lat1 - lat2) * (PI / 180) / 2)) by (apply sin_gt_0; nra).
      lra. }
  assert (0 < sin ((lat2 - lat1) * (PI / 180) / 2) ^ 2).
  { apply Rlt_0_sqr in Hs. unfold Rsqr in Hs. nra. }
  assert (0 <= sin ((lon2 - lon1) * (PI / 180) / 2) ^ 2) by apply pow2_ge_0.
  assert (0 <= cos (lat1 * (PI / 180)) * cos (lat2 * (PI / 180))) by nra.
  nra.
Qed.

(** Two points of one parallel (not a pole) on different meridians are a
    positive distance apart. *)
Lemma haversine_pos_lon (lat lon1 lon2 : R) :
  -90 < lat < 90 -> -360 < lon2 - lon1 < 360 -> lon1 <> lon2 ->
  0 < haversine_distance lat lon1 lat lon2.
Proof.
  intros H1 H2 Hne. apply haversine_distance_pos.
  unfold haversine_a, radians. pose proof PI_bounds as HPI.
  assert (Hc : 0 < cos (lat * (PI / 180))) by (apply cos_gt_0; nra).
  assert (Hs : sin ((lon2 - lon1) * (PI / 180) / 2) <> 0).
  { destruct (Rlt_dec lon1 lon2).
    - apply Rgt_not_eq. apply sin_gt_0; nra.
    - apply Rlt_not_eq.
      replace ((lon2 - lon1) * (PI / 180) / 2)
        with (- ((lon1 - lon2) * (PI / 180) / 2)) by field.
      rewrite sin_neg.
      assert (0 < sin ((lon1 - lon2) * (PI / 180) / 2)) by (apply sin_gt_0; nra).
      lra. }
  apply Rlt_0_sqr in Hs. unfold Rsqr in Hs.
  assert (0 <= sin ((lat - lat) * (PI / 180) / 2) ^ 2) by apply pow2_ge_0.
  assert (0 < cos (lat * (PI / 180)) * cos (lat * (PI / 180))) by nra.
  nra.
Qed.

(** The chord is no longer than the arc: the distance is at least
    [2 R sqrt a]. *)
Lemma haversine_distance_lower (lat1 lon1 lat2 lon2 : R) :
  6371000 * (2 * sqrt (haversine_a lat1 lon1 lat2 lon2))
  <= haversine_distance lat1 lon1 lat2 lon2.
Proof.
  unfold haversine_distance. cbv zeta.
  destruct (haversine_a_range lat1 lon1 lat2 lon2) as [H0 H1].
  set (a := haversine_a lat1 lon1 lat2 lon2) in *.
  assert (Hy : sqrt a <= atan2 (sqrt a) (sqrt (1 - a))); [| nra].
  destruct H0 as [H0 | <-].
  2:{ rewrite sqrt_0. apply atan2_nonneg; [lra | apply sqrt_pos]. }
  assert (Hsa : 0 < sqrt a) by now apply sqrt_lt_R0.
  assert (Hsa1 : sqrt a <= 1).
  { rewrite <- sqrt_1. apply sqrt_le_1; lra. }
  unfold atan2. pose proof PI_bounds as HPI.
  destruct (Rlt_dec 0 (sqrt (1 - a))) as [Hx | Hx].
  - set (t := sqrt a / sqrt (1 - a)).
    assert (Ht : 0 < t) by now apply Rdiv_lt_0_compat.
    assert (Hat : 0 < atan t) by (rewrite <- atan_0; now apply atan_increasing).
    assert (Hsin : sin (atan t) = sqrt a).
    { rewrite sin_atan. unfold t, Rsqr.
      assert (H1a : 0 < 1 - a).
      { destruct (Rle_lt_dec (1 - a) 0) as [Hle | Hlt]; [| exact Hlt].
        rewrite (sqrt_neg_0 _ Hle) in Hx. lra. }
      assert (Hsq : sqrt (1 - a) * sqrt (1 - a) = 1 - a) by (apply sqrt_def; lra).
      assert (Hsqa : sqrt a * sqrt a = a) by (apply sqrt_def; lra).
      replace (1 + sqrt a / sqrt (1 - a) * (sqrt a / sqrt (1 - a)))
        with (/ (sqrt (1 - a) * sqrt (1 - a))).
      2:{ field_simplify_eq; [| lra]. nra. }
      rewrite <- Rsqr_def, <- Rsqr_inv', sqrt_Rsqr.
      - field. lra.
      - left. now apply Rinv_0_lt_compat. }
    rewrite <- Hsin at 1. left. now apply sin_lt_x.
  - destruct (Rlt_dec (sqrt (1 - a)) 0) as [Hneg | _].
    + pose proof (sqrt_pos (1 - a)). lra.
    + destruct (Rlt_dec 0 (sqrt a)); lra.
Qed.

Lemma sin_lower_half (x : R) : 0 <= x <= 1 -> x / 2 <= sin x.
Proof.
  intros Hx. pose proof PI_bounds as HPI.
  destruct (sin_bound x 0) as [Hlb _]; [lra | lra |].
  unfold sin_approx, sin_term in Hlb. simpl in Hlb.
  assert (x * (x * x) <= x) by nra.
  lra.
Qed.

(** C8: the distance from a point to itself is 0, the distance is symmetric
    in its two points, and two points of one meridian 1 degree of latitude
    apart are within 2,000 m of 111,000 m apart (the value is
    6,371,000 * PI / 180). *)
Theorem haversine_distance_properties :
  (forall lat lon, haversine_distance lat lon lat lon = 0) /\
  (forall lat1 lon1 lat2 lon2,
     haversine_distance lat1 lon1 lat2 lon2 =
     haversine_distance lat2 lon2 lat1 lon1) /\
  (forall lat lon,
     Rabs (haversine_distance lat lon (lat + 1) lon - 111000) < 2000 /\
     Rabs (haversine_distance (lat + 1) lon lat lon - 111000) < 2000).
Proof.
  split; [| split].
  - apply haversine_distance_same.
  - apply haversine_distance_sym.
  - intros lat lon.
    rewrite (haversine_distance_sym (lat + 1) lon lat lon), haversine_one_degree.
    pose proof PI_bounds as HPI.
    split; apply Rabs_def1; lra.
Qed.

End UtilsFacts.

(* ================================================================= *)
(** ** Properties of the built-ins *)

Module PyFacts.
Import Py.

(** [round(x, 2)] moves [x] by at most half a hundredth. *)
Lemma round2_close (x : R) : - (1 / 200) <= round2 x - x <= 1 / 200.
Proof.
  unfold round2. cbv zeta.
  pose proof (Zfloor_bound (x * 100)) as [Hlo Hhi].
  set (f := Zfloor (x * 100)) in *.
  destruct (Rlt_dec (x * 100 - IZR f) (1 / 2)) as [H | H].
  - split; lra.
  - destruct (Rlt_dec (1 / 2) (x * 100 - IZR f)) as [H' | H'].
    + rewrite plus_IZR. split; lra.
    + destruct (Z.even f); [| rewrite plus_IZR]; split; lra.
Qed.

Lemma round2_at (x : R) (f : Z) :
  IZR f <= x * 100 < IZR f + 1 ->
  round2 x =
  IZR (if Rlt_dec (x * 100 - IZR f) (1 / 2) then f
       else if Rlt_dec (1 / 2) (x * 100 - IZR f) then (f + 1)%Z
       else if Z.even f then f else (f + 1)%Z) / 100.
Proof. intros H. unfold round2. cbv zeta. now rewrite (Zfloor_eq f (x * 100) H). Qed.

(** Ties go to the even hundredth, as in Python. *)
Example round2_tie_down : round2 0.125 = 0.12.
Proof.
  rewrite (round2_at 0.125 12) by lra.
  destruct (Rlt_dec (0.125 * 100 - 12) (1 / 2)); [lra |].
  destruct (Rlt_dec (1 / 2) (0.125 * 100 - 12)); [lra |].
  simpl. lra.
Qed.

Example round2_tie_up : round2 0.135 = 0.14.
Proof.
  rewrite (round2_at 0.135 13) by lra.
  destruct (Rlt_dec (0.135 * 100 - 13) (1 / 2)); [lra |].
  destruct (Rlt_dec (1 / 2) (0.135 * 100 - 13)); [lra |].
  simpl. lra.
Qed.

Example string_of_nat_105 : string_of_nat 105 = "105"%string.
Proof. reflexivity. Qed.

End PyFacts.

(* ================================================================= *)
(** ** Properties of the graph container and of one overlay pass *)

Module GraphFacts.
Import Utils Nx Py Engine Weighting.

Lemma node_eqb_refl (a : node) : node_eqb a a = true.
Proof. unfold node_eqb. destruct (node_eq_dec a a); congruence. Qed.

Lemma node_eqb_eq (a b : node) : node_eqb a b = true <-> a = b.
Proof. unfold node_eqb. destruct (node_eq_dec a b); split; congruence. Qed.

Lemma node_eqb_neq (a b : node) : a <> b -> node_eqb a b = false.
Proof. unfold node_eqb. destruct (node_eq_dec a b); congruence. Qed.

Lemma same_edge_refl (u v : node) : same_edge u v u v = true.
Proof. unfold same_edge. now rewrite !node_eqb_refl. Qed.

Lemma same_edge_true (u v a b : node) :
  same_edge u v a b = true -> (u = a /\ v = b) \/ (u = b /\ v = a).
Proof.
  unfold same_edge. rewrite orb_true_iff, !andb_true_iff, !node_eqb_eq. tauto.
Qed.

Lemma same_edge_sym (u v a b : node) : same_edge u v a b = same_edge a b u v.
Proof.
  unfold same_edge, node_eqb.
  destruct (node_eq_dec u a), (node_eq_dec v b), (node_eq_dec u b),
    (node_eq_dec v a), (node_eq_dec a u), (node_eq_dec b v),
    (node_eq_dec a v), (node_eq_dec b u); simpl; congruence.
Qed.

Lemma same_edge_trans (u v a b x y : node) :
  same_edge u v a b = true -> same_edge a b x y = same_edge u v x y.
Proof.
  unfold same_edge. rewrite orb_true_iff, !andb_true_iff, !node_eqb_eq.
  intros [[-> ->] | [-> ->]]; [reflexivity |].
  unfold node_eqb.
  destruct (node_eq_dec b x), (node_eq_dec a y), (node_eq_dec b y),
    (node_eq_dec a x); simpl; congruence.
Qed.

Lemma upsert_edge_all (P : EdgeData -> Prop) es u v d :
  Forall (fun e => P (snd e)) es -> P d ->
  Forall (fun e => P (snd e)) (upsert_edge es u v d).
Proof.
  intros Hes Hd. induction Hes as [| [[a b] d0] rest H0 Hrest IH]; simpl.
  - constructor; [exact Hd | constructor].
  - destruct (same_edge u v a b); constructor; auto.
Qed.

Lemma lookup_upsert_same es u v d :
  lookup_edge (upsert_edge es u v d) u v = Some d.
Proof.
  induction es as [| [[a b] d0] rest IH]; simpl.
  - now rewrite same_edge_refl.
  - destruct (same_edge u v a b) eqn:E; simpl; rewrite E; auto.
Qed.

Lemma lookup_upsert_other es u v d x y :
  same_edge x y u v = false ->
  lookup_edge (upsert_edge es u v d) x y = lookup_edge es x y.
Proof.
  intros Hne. induction es as [| [[a b] d0] rest IH]; simpl.
  - now rewrite Hne.
  - destruct (same_edge u v a b) eqn:E; simpl.
    + assert (Hxy : same_edge x y a b = false).
      { rewrite (same_edge_sym x y a b), (same_edge_trans _ _ _ _ x y E).
        now rewrite same_edge_sym. }
      now rewrite Hxy.
    + now rewrite IH.
Qed.

Lemma lookup_edge_in es u v d :
  lookup_edge es u v = Some d -> exists a b, In (a, b, d) es.
Proof.
  induction es as [| [[a b] d0] rest IH]; simpl; [discriminate |].
  destruct (same_edge u v a b).
  - intros [= ->]. exists a, b. now left.
  - intros H. destruct (IH H) as (a' & b' & Hin). exists a', b'. now right.
Qed.

Lemma get_edge_data_all (P : EdgeData -> Prop) g u v d :
  all_edges P g -> get_edge_data g u v = Some d -> P d.
Proof.
  unfold all_edges, get_edge_data. intros Hall H.
  destruct (lookup_edge_in _ _ _ _ H) as (a & b & Hin).
  rewrite Forall_forall in Hall. exact (Hall _ Hin).
Qed.

Lemma new_edge_data_fresh (s e : node) (f i : nat) :
  fresh_data (new_edge_data s e f i).
Proof.
  unfold fresh_data, base_distance, new_edge_data; simpl.
  repeat split; eauto.
Qed.

Lemma add_edge_all (P : EdgeData -> Prop) g u v d :
  all_edges P g -> P d -> all_edges P (add_edge g u v d).
Proof. unfold all_edges, add_edge; simpl. apply upsert_edge_all. Qed.

Lemma add_segments_all (P : EdgeData -> Prop) line idx js st :
  (forall s e i, P (new_edge_data s e idx i)) ->
  all_edges P (fst st) ->
  all_edges P (fst (fold_left (add_segment line idx) js st)).
Proof.
  intros HP. revert st.
  induction js as [| j js IH]; intros st Hst; simpl; [exact Hst |].
  apply IH. simpl. now apply add_edge_all.
Qed.

Lemma add_linestring_all (P : EdgeData -> Prop) g line idx :
  (forall s e i, P (new_edge_data s e idx i)) ->
  all_edges P g -> all_edges P (fst (_add_linestring_to_graph g line idx)).
Proof.
  intros HP Hg. unfold _add_linestring_to_graph. now apply add_segments_all.
Qed.

Lemma build_row_all (P : EdgeData -> Prop) st row :
  (forall s e idx i, P (new_edge_data s e idx i)) ->
  all_edges P (fst st) -> all_edges P (fst (build_row st row)).
Proof.
  intros HP Hst. destruct row as [idx [coords | geoms |]];
    unfold build_row; simpl.
  - now apply add_linestring_all.
  - revert st Hst. induction geoms as [| line geoms IH]; intros st Hst; simpl.
    + exact Hst.
    + apply IH. simpl. now apply add_linestring_all.
  - exact Hst.
Qed.

Lemma build_rows_all (P : EdgeData -> Prop) rows st :
  (forall s e idx i, P (new_edge_data s e idx i)) ->
  all_edges P (fst st) -> all_edges P (fst (fold_left build_row rows st)).
Proof.
  intros HP. revert st.
  induction rows as [| row rows IH]; intros st Hst; simpl; [exact Hst |].
  apply IH. now apply build_row_all.
Qed.

Section OnePass.
Variable Polygon : Type.
Variable intersects : LineString -> Polygon -> bool.

(** A graph just built has freshly inserted edges only. *)
Lemma build_graph_some (self : RoutePlanner Polygon) df :
  gdf self = Some df ->
  exists g, build_graph self = (true, set_graph self (Some g)) /\
            all_edges fresh_data g.
Proof.
  intros Hdf. unfold build_graph. rewrite Hdf.
  eexists; split; [reflexivity |].
  apply build_rows_all.
  - intros; apply new_edge_data_fresh.
  - constructor.
Qed.

Lemma mark_edge_data_geometry zones d :
  geometry (mark_edge_data intersects zones d) = geometry d /\
  segment_id (mark_edge_data intersects zones d) = segment_id d.
Proof.
  unfold Engine.mark_edge_data. destruct (geometry d) eqn:G; [now rewrite G |].
  destruct (existsb _ zones); simpl; now rewrite ?G.
Qed.

Lemma mark_edge_data_base zones d :
  base_distance (mark_edge_data intersects zones d) = base_distance d.
Proof.
  unfold base_distance. now rewrite (proj1 (mark_edge_data_geometry zones d)).
Qed.

Lemma mark_edge_data_miss zones d :
  hit intersects zones d = false -> mark_edge_data intersects zones d = d.
Proof.
  unfold hit, Engine.mark_edge_data. intros H.
  destruct (geometry d) eqn:G; [reflexivity |]. now rewrite H.
Qed.

Lemma mark_edge_data_hit zones d :
  geometry d <> [] -> hit intersects zones d = true ->
  is_flooded (mark_edge_data intersects zones d) = true /\
  weight (mark_edge_data intersects zones d) = weight d * 100.
Proof.
  unfold hit, Engine.mark_edge_data. intros Hg H.
  destruct (geometry d) eqn:G; [congruence |]. rewrite H. now simpl.
Qed.

Lemma mark_edge_data_flag zones d :
  geometry d <> [] ->
  is_flooded (mark_edge_data intersects zones d) = is_flooded d || hit intersects zones d.
Proof.
  intros Hg. destruct (hit intersects zones d) eqn:H.
  - rewrite (proj1 (mark_edge_data_hit zones d Hg H)). now rewrite orb_true_r.
  - rewrite (mark_edge_data_miss zones d H). now rewrite orb_false_r.
Qed.

Lemma mark_fresh_data zones d :
  fresh_data d ->
  let d' := mark_edge_data intersects zones d in
  weighted_data d' /\
  ((is_flooded d' = true /\ weight d' = base_distance d' * 100)
   <-> hit intersects zones d' = true).
Proof.
  intros (Hf & Hw & a & b & Hg). cbv zeta.
  assert (Hne : geometry d <> []) by (rewrite Hg; discriminate).
  assert (Hh : hit intersects zones (mark_edge_data intersects zones d) = hit intersects zones d).
  { unfold hit. now rewrite (proj1 (mark_edge_data_geometry zones d)). }
  rewrite Hh, mark_edge_data_base.
  destruct (hit intersects zones d) eqn:H.
  - destruct (mark_edge_data_hit zones d Hne H) as [F W].
    rewrite F, W, Hw. unfold weighted_data.
    rewrite F, W, Hw, mark_edge_data_base. repeat split; congruence.
  - rewrite (mark_edge_data_miss zones d H). unfold weighted_data.
    rewrite Hf. repeat split; try congruence. intros [? _]; congruence.
Qed.

End OnePass.
End GraphFacts.

(* ================================================================= *)
(** ** Properties of the route metrics *)

Module MetricFacts.
Import Utils Nx Py Engine Weighting GraphFacts.

Lemma length_step_shift g x rest total i :
  length_step g (x :: rest) total (S i) = length_step g rest total i.
Proof. reflexivity. Qed.

Lemma count_step_shift g x rest count i :
  count_step g (x :: rest) count (S i) = count_step g rest count i.
Proof. reflexivity. Qed.

Lemma fold_length_shift g x rest js total :
  fold_left (length_step g (x :: rest)) (map S js) total =
  fold_left (length_step g rest) js total.
Proof.
  revert total. induction js as [| j js IH]; intros total; simpl; [reflexivity |].
  now rewrite IH.
Qed.

Lemma fold_count_shift g x rest js count :
  fold_left (count_step g (x :: rest)) (map S js) count =
  fold_left (count_step g rest) js count.
Proof.
  revert count. induction js as [| j js IH]; intros count; simpl; [reflexivity |].
  now rewrite IH.
Qed.

Lemma fold_length_acc g path js total :
  fold_left (length_step g path) js total =
  total + fold_left (length_step g path) js 0.
Proof.
  revert total. induction js as [| j js IH]; intros total; simpl; [ring |].
  rewrite IH, (IH (length_step g path 0 j)).
  unfold length_step.
  destruct (get_edge_data g (coord_at path j) (coord_at path (j + 1))); ring.
Qed.

Lemma fold_count_acc g path js count :
  fold_left (count_step g path) js count =
  (count + fold_left (count_step g path) js 0)%nat.
Proof.
  revert count. induction js as [| j js IH]; intros count; simpl; [lia |].
  rewrite IH, (IH (count_step g path 0 j)).
  unfold count_step.
  destruct (get_edge_data g (coord_at path j) (coord_at path (j + 1))) as [d |];
    [destruct (is_flooded d) |]; lia.
Qed.

(** The loop of [_calculate_path_length] adds up the restored weights of
    the edges along the path. *)
Lemma calculate_path_length_sum g path :
  _calculate_path_length g path = sum_over_path restored_weight g path.
Proof.
  unfold _calculate_path_length.
  induction path as [| x rest IH]; [reflexivity |].
  destruct rest as [| y rest]; [reflexivity |].
  replace (length (x :: y :: rest) - 1)%nat with (S (length (y :: rest) - 1))
    by (simpl; lia).
  rewrite <- cons_seq, <- seq_shift.
  cbn [fold_left]. rewrite fold_length_shift, fold_length_acc, IH.
  cbn [sum_over_path]. f_equal.
  unfold length_step, coord_at; simpl.
  destruct (get_edge_data g x y); unfold restored_weight; ring.
Qed.

Lemma count_flooded_segments_sum g path :
  _count_flooded_segments g path = flooded_on_path g path.
Proof.
  unfold _count_flooded_segments.
  induction path as [| x rest IH]; [reflexivity |].
  destruct rest as [| y rest]; [reflexivity |].
  replace (length (x :: y :: rest) - 1)%nat with (S (length (y :: rest) - 1))
    by (simpl; lia).
  rewrite <- cons_seq, <- seq_shift.
  cbn [fold_left]. rewrite fold_count_shift, fold_count_acc, IH.
  cbn [flooded_on_path].
  unfold count_step, coord_at; simpl.
  destruct (get_edge_data g x y) as [d |]; [destruct (is_flooded d) |]; reflexivity.
Qed.

Lemma sum_over_path_step (f : EdgeData -> R) g x y rest :
  sum_over_path f g (x :: y :: rest) =
  match get_edge_data g x y with Some d => f d | None => 0 end
  + sum_over_path f g (y :: rest).
Proof. reflexivity. Qed.

Lemma sum_over_path_ext (f f' : EdgeData -> R) (P : EdgeData -> Prop) g path :
  all_edges P g -> (forall d, P d -> f d = f' d) ->
  sum_over_path f g path = sum_over_path f' g path.
Proof.
  intros Hall Hf. induction path as [| x rest IH]; [reflexivity |].
  destruct rest as [| y rest]; [reflexivity |].
  rewrite !sum_over_path_step, IH. f_equal.
  destruct (get_edge_data g x y) as [d |] eqn:E; [| reflexivity].
  apply Hf. eapply get_edge_data_all; eauto.
Qed.

End MetricFacts.

(* ================================================================= *)
(** ** Properties of the hazard overlay *)

Module OverlayFacts.
Import Utils Nx Py Engine Weighting GraphFacts.

Section Overlay.
Variable Polygon : Type.
Variable intersects : LineString -> Polygon -> bool.

Lemma lookup_mark_edges zones es u v :
  lookup_edge (map (fun e => (fst e, mark_edge_data intersects zones (snd e))) es) u v
  = option_map (mark_edge_data intersects zones) (lookup_edge es u v).
Proof.
  induction es as [| [[a b] d] rest IH]; simpl; [reflexivity |].
  destruct (same_edge u v a b); [reflexivity | exact IH].
Qed.

Lemma get_edge_data_mark_edges zones g u v :
  get_edge_data (mark_edges intersects zones g) u v
  = option_map (mark_edge_data intersects zones) (get_edge_data g u v).
Proof. unfold get_edge_data, mark_edges; simpl. apply lookup_mark_edges. Qed.

Lemma mark_edges_all (P Q : EdgeData -> Prop) zones g :
  (forall d, P d -> Q (mark_edge_data intersects zones d)) ->
  all_edges P g -> all_edges Q (mark_edges intersects zones g).
Proof.
  unfold all_edges, mark_edges; simpl. intros HPQ Hall.
  rewrite Forall_map. simpl. eapply Forall_impl; [| exact Hall].
  intros e He. now apply HPQ.
Qed.

(** [set_flood_zones] on a built graph with a non-empty list of zones. *)
Lemma set_flood_zones_marks (self : RoutePlanner Polygon) g zones :
  graph self = Some g -> zones <> [] ->
  set_flood_zones intersects self zones =
  (Returned tt,
   {| geojson_path := geojson_path self;
      graph := Some (mark_edges intersects zones g);
      gdf := gdf self; flood_zones := zones |}).
Proof.
  intros Hg Hz. unfold set_flood_zones, _mark_flooded_edges; simpl.
  destruct zones as [| z zones]; [congruence |]. now rewrite Hg.
Qed.

(** With an empty list [set_flood_zones] only stores the list. *)
Lemma set_flood_zones_empty (self : RoutePlanner Polygon) :
  set_flood_zones intersects self [] =
  (Returned tt,
   {| geojson_path := geojson_path self; graph := graph self;
      gdf := gdf self; flood_zones := [] |}).
Proof. reflexivity. Qed.

Lemma hit_mark_edge_data zones zones' d :
  hit intersects zones (mark_edge_data intersects zones' d) = hit intersects zones d.
Proof. unfold hit. now rewrite (proj1 (mark_edge_data_geometry _ intersects zones' d)). Qed.

Lemma fresh_data_geometry d : fresh_data d -> geometry d <> [].
Proof. intros (_ & _ & a & b & ->). discriminate. Qed.

(** One overlay pass over freshly inserted edges. *)
Lemma mark_fresh_graph zones g :
  all_edges fresh_data g ->
  all_edges weighted_data (mark_edges intersects zones g) /\
  zones_decide_edges intersects zones (mark_edges intersects zones g) /\
  (forall u v d, get_edge_data (mark_edges intersects zones g) u v = Some d ->
     hit intersects zones d = false ->
     is_flooded d = false /\ weight d = base_distance d).
Proof.
  intros Hfresh.
  assert (Hall : all_edges (fun d' =>
             weighted_data d' /\
             ((is_flooded d' = true /\ weight d' = base_distance d' * 100)
              <-> hit intersects zones d' = true))
            (mark_edges intersects zones g)).
  { eapply mark_edges_all; [| exact Hfresh].
    intros d Hd. exact (mark_fresh_data _ intersects zones d Hd). }
  split; [| split].
  - unfold all_edges in *. eapply Forall_impl; [| exact Hall]. now intros e [H _].
  - intros u v d Hd. exact (proj2 (get_edge_data_all _ _ _ _ _ Hall Hd)).
  - intros u v d Hd Hmiss.
    destruct (get_edge_data_all _ _ _ _ _ Hall Hd) as [[W0 W1] Hiff].
    destruct (is_flooded d) eqn:F.
    + assert (hit intersects zones d = true) by (apply Hiff; auto). congruence.
    + auto.
Qed.


Lemma fresh_data_weighted d : fresh_data d -> weighted_data d.
Proof.
  intros (Hf & Hw & _). unfold weighted_data. rewrite Hf.
  split; [auto | discriminate].
Qed.

(** After [build_graph] and one call of [set_flood_zones], with any list of
    zones, every edge has the weight that goes with its flag. *)
Lemma weighted_after_one_overlay (self : RoutePlanner Polygon)
  (df : GeoDataFrame) (zones : list Polygon) :
  gdf self = Some df ->
  exists g,
    graph (snd (set_flood_zones intersects (snd (build_graph self)) zones)) = Some g /\
    all_edges weighted_data g.
Proof.
  intros Hdf. destruct (build_graph_some _ self df Hdf) as (g & -> & Hfresh).
  destruct zones as [| z zones].
  - exists g. split; [reflexivity |].
    unfold all_edges in *. eapply Forall_impl; [| exact Hfresh].
    intros e. apply fresh_data_weighted.
  - erewrite (set_flood_zones_marks _ g (z :: zones)); [| reflexivity | discriminate].
    eexists. split; [reflexivity |].
    exact (proj1 (mark_fresh_graph (z :: zones) g Hfresh)).
Qed.


End Overlay.
End OverlayFacts.

(* ================================================================= *)
(** ** Properties of the graph builder *)

Module BuilderFacts.
Import Utils Nx Py Engine Segments GraphFacts.

Example format_segment_id_12_3 : format_segment_id 12 3 = "12_3"%string.
Proof. reflexivity. Qed.

Lemma add_segments_insertions line idx js st :
  fst (fold_left (add_segment line idx) js st) =
  insert_all (map (fun j => (coord_at line j, coord_at line (j + 1),
                             new_edge_data (coord_at line j) (coord_at line (j + 1)) idx j)) js)
             (fst st).
Proof.
  revert st. induction js as [| j js IH]; intros st; simpl; [reflexivity |].
  now rewrite IH.
Qed.

Lemma add_linestring_insertions g line idx :
  fst (_add_linestring_to_graph g line idx) = insert_all (part_insertions idx line) g.
Proof. unfold _add_linestring_to_graph. now rewrite add_segments_insertions. Qed.

Lemma insert_all_app a b g :
  insert_all (a ++ b) g = insert_all b (insert_all a g).
Proof. unfold insert_all. apply fold_left_app. Qed.

Lemma build_row_multi_insertions st idx geoms :
  fst (build_row st (idx, GMultiLineString geoms)) =
  insert_all (concat (map (part_insertions idx) geoms)) (fst st).
Proof.
  unfold build_row. simpl. revert st.
  induction geoms as [| line geoms IH]; intros st; simpl; [reflexivity |].
  rewrite IH, insert_all_app. simpl. now rewrite add_linestring_insertions.
Qed.

Lemma get_edge_data_add_same g u v d :
  get_edge_data (add_edge g u v d) u v = Some d.
Proof. unfold get_edge_data, add_edge; simpl. apply lookup_upsert_same. Qed.

Lemma get_edge_data_add_other g u v d x y :
  same_edge x y u v = false ->
  get_edge_data (add_edge g u v d) x y = get_edge_data g x y.
Proof. unfold get_edge_data, add_edge; simpl. apply lookup_upsert_other. Qed.

Lemma get_edge_data_insert_other ins g x y :
  (forall e, In e ins -> same_edge (fst (fst e)) (snd (fst e)) x y = false) ->
  get_edge_data (insert_all ins g) x y = get_edge_data g x y.
Proof.
  revert g. induction ins as [| e ins IH]; intros g H; simpl; [reflexivity |].
  rewrite IH by (intros e' He'; apply H; now right).
  apply get_edge_data_add_other. rewrite same_edge_sym. apply H. now left.
Qed.

(** Last write wins: after a run of [add_edge] calls the pair [(u, v)] holds
    the attributes of the last call on it. *)
Lemma get_edge_data_insert_last pre u v d post g :
  (forall e, In e post -> same_edge (fst (fst e)) (snd (fst e)) u v = false) ->
  get_edge_data (insert_all (pre ++ (u, v, d) :: post) g) u v = Some d.
Proof.
  intros H. rewrite insert_all_app. simpl.
  change (get_edge_data (insert_all post (add_edge (insert_all pre g) u v d)) u v = Some d).
  rewrite get_edge_data_insert_other by exact H.
  apply get_edge_data_add_same.
Qed.


Lemma in_part_insertions idx line e :
  In e (part_insertions idx line) ->
  exists j, (j + 1 < length line)%nat /\
    e = (coord_at line j, coord_at line (j + 1),
         new_edge_data (coord_at line j) (coord_at line (j + 1)) idx j).
Proof.
  unfold part_insertions. rewrite in_map_iff.
  intros (j & <- & Hj). apply in_seq in Hj. exists j. split; [lia | reflexivity].
Qed.

Lemma part_insertions_split idx line j :
  (j + 1 < length line)%nat ->
  exists pre post,
    part_insertions idx line =
      pre ++ (coord_at line j, coord_at line (j + 1),
              new_edge_data (coord_at line j) (coord_at line (j + 1)) idx j) :: post /\
    forall e, In e post ->
      exists j', (j < j')%nat /\ (j' + 1 < length line)%nat /\
        fst e = (coord_at line j', coord_at line (j' + 1)).
Proof.
  intros Hj. unfold part_insertions.
  replace (length line - 1)%nat with (j + S (length line - 1 - S j))%nat by lia.
  rewrite seq_app, map_app. simpl.
  eexists _, _. split; [reflexivity |].
  intros e He. apply in_map_iff in He. destruct He as (j' & <- & Hj').
  apply in_seq in Hj'. exists j'. repeat split; lia.
Qed.

(** Where segment [j] of part [k] stands among the [add_edge] calls of a
    multi-part feature, and what comes after it. *)
Lemma feature_insertions_split idx geoms k j :
  valid_segment geoms k j ->
  exists pre post,
    concat (map (part_insertions idx) geoms) =
      pre ++ (fst (segment_of geoms k j), snd (segment_of geoms k j),
              new_edge_data (fst (segment_of geoms k j))
                            (snd (segment_of geoms k j)) idx j) :: post /\
    forall e, In e post ->
      exists k' j', valid_segment geoms k' j' /\
        (k < k' \/ (k = k' /\ j < j'))%nat /\
        fst e = segment_of geoms k' j'.
Proof.
  intros [Hk Hj].
  assert (Hsplit : firstn k geoms ++ nth k geoms [] :: skipn (S k) geoms = geoms).
  { apply firstn_skipn_middle. now apply nth_error_nth'. }
  destruct (part_insertions_split idx (nth k geoms []) j Hj)
    as (pre & post & Hpart & Hpost).
  exists (concat (map (part_insertions idx) (firstn k geoms)) ++ pre),
         (post ++ concat (map (part_insertions idx) (skipn (S k) geoms))).
  split.
  - rewrite <- Hsplit at 1.
    rewrite map_app, concat_app. simpl. rewrite Hpart.
    unfold segment_of; simpl. now rewrite <- !app_assoc.
  - intros e He. apply in_app_or in He. destruct He as [He | He].
    + destruct (Hpost e He) as (j' & Hlt & Hv & Hfst).
      exists k, j'. repeat split; auto.
    + apply in_concat in He. destruct He as (ins & Hins & He).
      apply in_map_iff in Hins. destruct Hins as (line' & <- & Hline').
      apply (In_nth _ _ []) in Hline'. destruct Hline' as (i & Hi & Hnth).
      rewrite nth_skipn in Hnth. rewrite length_skipn in Hi.
      apply in_part_insertions in He. destruct He as (j' & Hj' & ->).
      exists (S k + i)%nat, j'. unfold valid_segment, segment_of.
      rewrite Hnth. repeat split; simpl; try lia.
Qed.

(** The attributes of a segment that is written last, after the builder has
    processed the whole multi-part row. *)
Lemma build_row_multi_lookup st idx geoms k j :
  valid_segment geoms k j -> written_last geoms k j ->
  get_edge_data (fst (build_row st (idx, GMultiLineString geoms)))
                (fst (segment_of geoms k j)) (snd (segment_of geoms k j)) =
  Some (new_edge_data (fst (segment_of geoms k j)) (snd (segment_of geoms k j)) idx j).
Proof.
  intros Hv Hlast. rewrite build_row_multi_insertions.
  destruct (feature_insertions_split idx geoms k j Hv) as (pre & post & -> & Hpost).
  apply get_edge_data_insert_last.
  intros e He. destruct (Hpost e He) as (k' & j' & Hv' & Hlater & Hfst).
  specialize (Hlast k' j' Hv' Hlater). rewrite <- Hfst in Hlast. exact Hlast.
Qed.

(** The decimal digits of a number hold no underscore, so the underscore
    of a segment id is where the feature id ends. *)
Lemma digits_split (d1 d2 : Decimal.uint) (t1 t2 : string) :
  (NilEmpty.string_of_uint d1 ++ "_" ++ t1
   = NilEmpty.string_of_uint d2 ++ "_" ++ t2)%string ->
  NilEmpty.string_of_uint d1 = NilEmpty.string_of_uint d2 /\ t1 = t2.
Proof.
  revert d2. induction d1 as [| d1 IH | d1 IH | d1 IH | d1 IH | d1 IH
                              | d1 IH | d1 IH | d1 IH | d1 IH | d1 IH];
    intros d2; destruct d2; simpl; intros H; try discriminate H;
    try (injection H as H; now split);
    injection H as H; destruct (IH _ H) as [-> ->]; now split.
Qed.

Lemma to_uint_not_nil (n : nat) : Nat.to_uint n <> Decimal.Nil.
Proof.
  intros H. assert (E : n = 0%nat).
  { rewrite <- (DecimalNat.Unsigned.of_to n), H. reflexivity. }
  subst n. discriminate H.
Qed.

Lemma string_of_nat_digits (n : nat) :
  string_of_nat n = NilEmpty.string_of_uint (Nat.to_uint n).
Proof.
  unfold string_of_nat, NilZero.string_of_uint.
  pose proof (to_uint_not_nil n) as H.
  destruct (Nat.to_uint n); [contradiction | reflexivity ..].
Qed.

Lemma string_of_nat_inj (n m : nat) : string_of_nat n = string_of_nat m -> n = m.
Proof.
  rewrite !string_of_nat_digits. intros H.
  apply DecimalNat.Unsigned.to_uint_inj.
  pose proof (NilEmpty.usu (Nat.to_uint n)) as Hn.
  pose proof (NilEmpty.usu (Nat.to_uint m)) as Hm.
  rewrite H in Hn. congruence.
Qed.

Lemma format_segment_id_inj (i j i' j' : nat) :
  format_segment_id i j = format_segment_id i' j' -> i = i' /\ j = j'.
Proof.
  unfold format_segment_id. rewrite !string_of_nat_digits.
  intros H. apply digits_split in H. destruct H as [Hi Hj].
  rewrite <- !string_of_nat_digits in Hi, Hj.
  split; now apply string_of_nat_inj.
Qed.

Lemma nth_error_part_insertions (idx : nat) (line : LineString) (j : nat) :
  (j + 1 < length line)%nat ->
  nth_error (part_insertions idx line) j
  = Some (coord_at line j, coord_at line (j + 1),
          new_edge_data (coord_at line j) (coord_at line (j + 1)) idx j).
Proof.
  intros Hj. unfold part_insertions.
  rewrite nth_error_map, nth_error_seq.
  destruct (Nat.ltb_spec j (length line - 1)); [reflexivity | lia].
Qed.

(** C10: the builder handles a multi-part row part after part: for each
    part it calls [add_edge] on the consecutive coordinate pairs, the pair
    at index [j] of the part with the segment_id made of the feature id in
    decimal, an underscore and [j] in decimal, the index starting again at
    0 in every part.  In the graph, a segment that no later segment of the
    row overwrites carries that id; so segment [j] of two different parts
    are two edges with one and the same segment_id.  The id tells features
    and indices apart, and nothing else. *)
Theorem multipart_segment_ids (st : Graph * nat) (idx : nat)
  (geoms : list LineString) :
  let g' := fst (build_row st (idx, GMultiLineString geoms)) in
  let id := fun i j : nat =>
    (NilZero.string_of_uint (Nat.to_uint i) ++ "_"
     ++ NilZero.string_of_uint (Nat.to_uint j))%string in
  (forall i j, format_segment_id i j = id i j) /\
  (forall i j i' j', id i j = id i' j' <-> i = i' /\ j = j') /\
  g' = insert_all (concat (map (part_insertions idx) geoms)) (fst st) /\
  (forall line,
     length (part_insertions idx line) = (length line - 1)%nat /\
     forall j, (j + 1 < length line)%nat ->
       exists d,
         nth_error (part_insertions idx line) j
         = Some (coord_at line j, coord_at line (j + 1), d) /\
         segment_id d = id idx j) /\
  (forall k j, valid_segment geoms k j -> written_last geoms k j ->
     exists d,
       get_edge_data g' (fst (segment_of geoms k j)) (snd (segment_of geoms k j)) = Some d /\
       segment_id d = id idx j) /\
  (forall k1 k2 j, (k1 < k2)%nat ->
     valid_segment geoms k1 j -> valid_segment geoms k2 j ->
     written_last geoms k1 j -> written_last geoms k2 j ->
     exists d1 d2,
       get_edge_data g' (fst (segment_of geoms k1 j)) (snd (segment_of geoms k1 j)) = Some d1 /\
       get_edge_data g' (fst (segment_of geoms k2 j)) (snd (segment_of geoms k2 j)) = Some d2 /\
       same_edge (fst (segment_of geoms k1 j)) (snd (segment_of geoms k1 j))
                 (fst (segment_of geoms k2 j)) (snd (segment_of geoms k2 j)) = false /\
       segment_id d1 = id idx j /\
       segment_id d2 = id idx j).
Proof.
  cbv zeta. split; [reflexivity |]. split.
  { intros i j i' j'. split; [apply format_segment_id_inj | now intros [-> ->]]. }
  split; [apply build_row_multi_insertions |]. split.
  { intros line. split.
    - unfold part_insertions. now rewrite length_map, length_seq.
    - intros j Hj. eexists. split; [now apply nth_error_part_insertions |].
      reflexivity. }
  split.
  - intros k j Hv Hlast. eexists. split.
    + now apply build_row_multi_lookup.
    + reflexivity.
  - intros k1 k2 j Hlt Hv1 Hv2 Hl1 Hl2. eexists _, _.
    split; [now apply build_row_multi_lookup |].
    split; [now apply build_row_multi_lookup |].
    split; [| split; reflexivity].
    rewrite same_edge_sym. apply Hl1; [exact Hv2 | now left].
Qed.

End BuilderFacts.

(* ================================================================= *)
(** ** Properties of the nearest-node locator *)

Module LocatorFacts.
Import Utils Nx Py Engine Locator UtilsFacts.

Lemma nearest_step_state lat lon seen st n :
  scan_state lat lon seen st ->
  scan_state lat lon (seen ++ [n]) (nearest_step lat lon st n).
Proof.
  destruct st as [m r]. unfold scan_state, nearest_step; simpl.
  fold (query_distance lat lon n).
  destruct r as [b |].
  - intros (-> & l1 & l2 & -> & H1 & H2). simpl.
    destruct (Rlt_dec (query_distance lat lon n) (query_distance lat lon b)) as [Hlt | Hge]; simpl.
    + split; [reflexivity |].
      exists (l1 ++ b :: l2), []. split; [now rewrite <- app_assoc |].
      split; [| intros x []].
      intros x Hx. apply in_app_or in Hx. destruct Hx as [Hx | [<- | Hx]].
      * specialize (H1 x Hx). lra.
      * exact Hlt.
      * specialize (H2 x Hx). lra.
    + split; [reflexivity |].
      exists l1, (l2 ++ [n]). split; [now rewrite <- app_assoc |].
      split; [exact H1 |].
      intros x Hx. apply in_app_or in Hx. destruct Hx as [Hx | [<- | []]].
      * now apply H2.
      * lra.
  - intros [-> ->]. simpl. split; [reflexivity |].
    exists [], []. repeat split; intros x [].
Qed.

Lemma nearest_scan_state lat lon l seen st :
  scan_state lat lon seen st ->
  scan_state lat lon (seen ++ l) (fold_left (nearest_step lat lon) l st).
Proof.
  revert seen st. induction l as [| n l IH]; intros seen st H; simpl.
  - now rewrite app_nil_r.
  - replace (seen ++ n :: l) with ((seen ++ [n]) ++ l)
      by (now rewrite <- app_assoc).
    apply IH. now apply nearest_step_state.
Qed.

(** What the whole scan returns. *)
Lemma find_nearest_node_scan (g : Graph) (lat lon : R) :
  match _find_nearest_node g lat lon with
  | None => nodes g = []
  | Some n =>
      exists l1 l2, nodes g = l1 ++ n :: l2 /\
        (forall x, In x l1 -> query_distance lat lon n < query_distance lat lon x) /\
        (forall x, In x l2 -> query_distance lat lon n <= query_distance lat lon x)
  end.
Proof.
  pose proof (nearest_scan_state lat lon (nodes g) [] (PosInf, None)) as H.
  simpl in H. specialize (H (conj eq_refl eq_refl)).
  unfold _find_nearest_node. unfold scan_state in H.
  destruct (snd (fold_left (nearest_step lat lon) (nodes g) (PosInf, None)))
    as [b |].
  - now destruct H as (_ & H).
  - now destruct H as [E _].
Qed.

Lemma find_nearest_node_in (g : Graph) (lat lon : R) (n : node) :
  _find_nearest_node g lat lon = Some n ->
  In n (nodes g) /\
  forall x, In x (nodes g) -> query_distance lat lon n <= query_distance lat lon x.
Proof.
  intros E. pose proof (find_nearest_node_scan g lat lon) as H. rewrite E in H.
  destruct H as (l1 & l2 & -> & H1 & H2). split.
  - apply in_or_app. right. now left.
  - intros x Hx. apply in_app_or in Hx. destruct Hx as [Hx | [<- | Hx]].
    + specialize (H1 x Hx). lra.
    + lra.
    + now apply H2.
Qed.

(** A query that is itself a node resolves to that node when the other
    nodes are a positive distance away. *)
Lemma find_nearest_node_at (g : Graph) (n : node) :
  In n (nodes g) ->
  (forall x, In x (nodes g) -> x <> n -> 0 < query_distance (snd n) (fst n) x) ->
  _find_nearest_node g (snd n) (fst n) = Some n.
Proof.
  intros Hn Hpos.
  pose proof (find_nearest_node_scan g (snd n) (fst n)) as H.
  destruct (_find_nearest_node g (snd n) (fst n)) as [m |] eqn:E.
  - destruct (find_nearest_node_in g _ _ m E) as [Hm Hmin].
    destruct (node_eq_dec m n) as [-> | Hne]; [reflexivity |].
    specialize (Hpos m Hm Hne). specialize (Hmin n Hn).
    unfold query_distance in Hmin at 2. rewrite haversine_distance_same in Hmin. lra.
  - rewrite H in Hn. contradiction.
Qed.

(** Over the reals, where every distance is defined: the locator returns
    a node of the graph at minimal distance from the query, the first such
    node in enumeration order, and it returns [None] exactly when the
    graph has no node. *)
Theorem find_nearest_node_minimal (g : Graph) (lat lon : R) :
  (_find_nearest_node g lat lon = None <-> nodes g = []) /\
  (forall n, _find_nearest_node g lat lon = Some n ->
     In n (nodes g) /\
     (forall x, In x (nodes g) ->
        query_distance lat lon n <= query_distance lat lon x) /\
     exists l1 l2, nodes g = l1 ++ n :: l2 /\
       forall x, In x l1 -> query_distance lat lon n < query_distance lat lon x).
Proof.
  pose proof (find_nearest_node_scan g lat lon) as H.
  destruct (_find_nearest_node g lat lon) as [b |] eqn:E.
  - split.
    + split; [discriminate |]. destruct H as (l1 & l2 & -> & _). intros C.
      symmetry in C. now apply app_cons_not_nil in C.
    + intros n [= <-]. destruct (find_nearest_node_in g lat lon b E) as [Hin Hmin].
      split; [exact Hin | split; [exact Hmin |]].
      destruct H as (l1 & l2 & Hn & H1 & _). now exists l1, l2.
  - split; [now split | discriminate].
Qed.

End LocatorFacts.

(* ================================================================= *)
(** ** Properties of the route finder and of build_graph *)

Module RouteFacts.
Import Utils Nx Py Engine Weighting Segments Locator NxContract.
Import GraphFacts MetricFacts LocatorFacts.

Section Route.
Variable Polygon : Type.
Variable astar_path : Graph -> node -> node -> (node -> node -> R) -> AstarOutcome.

(** [find_route] never changes the planner. *)
Lemma find_route_state (self : RoutePlanner Polygon) (a b c d : R) :
  snd (find_route astar_path self a b c d) = self.
Proof.
  unfold find_route.
  destruct (graph self) as [g |]; [| reflexivity].
  destruct (_find_nearest_node g a b) as [s |]; [| reflexivity].
  destruct (_find_nearest_node g c d) as [t |]; [| reflexivity].
  destruct (astar_path g s t _heuristic); reflexivity.
Qed.

(** The returned dictionary depends on the planner through its graph only. *)
Lemma find_route_graph_only (self other : RoutePlanner Polygon) (a b c d : R) :
  graph other = graph self ->
  fst (find_route astar_path other a b c d) = fst (find_route astar_path self a b c d).
Proof.
  unfold find_route. intros ->.
  destruct (graph self) as [g |]; [| reflexivity].
  destruct (_find_nearest_node g a b) as [s |]; [| reflexivity].
  destruct (_find_nearest_node g c d) as [t |]; [| reflexivity].
  destruct (astar_path g s t _heuristic); reflexivity.
Qed.


(** C4 as amended: when the two coordinates resolve to nodes that no walk
    of the graph joins, [find_route] returns the dictionary of its no-path
    branch: status ['error'] (the code has no other status for it) with the
    no-route message, and neither features (no coordinate sequence) nor
    distance. *)
Theorem find_route_no_path (self : RoutePlanner Polygon) (g : Graph)
  (a b c d : R) (s t : node) :
  raises_no_path_when_disconnected astar_path ->
  graph self = Some g ->
  _find_nearest_node g a b = Some s ->
  _find_nearest_node g c d = Some t ->
  ~ connected g s t ->
  exists r,
    find_route astar_path self a b c d = (Some r, self) /\
    status (metadata r) = "error"%string /\
    message (metadata r) = Some "Nie znaleziono trasy między punktami"%string /\
    features r = None /\
    md_distance_meters (metadata r) = None /\
    md_start (metadata r) = None /\ md_end (metadata r) = None.
Proof.
  intros Hnx Hg Hs Ht Hdis. exists no_path_dict.
  repeat split. unfold find_route. rewrite Hg, Hs, Ht.
  rewrite (Hnx g s t _heuristic); [reflexivity | | | exact Hdis].
  - exact (proj1 (find_nearest_node_in g a b s Hs)).
  - exact (proj1 (find_nearest_node_in g c d t Ht)).
Qed.

Lemma route_coords_path (path : list node) :
  map (fun p : node => (fst p, snd p)) path = path.
Proof.
  induction path as [| [x y] rest IH]; simpl; [reflexivity |]. now rewrite IH.
Qed.

Lemma add_short_linestring (g : Graph) (line : LineString) (idx : nat) :
  (length line <= 1)%nat -> _add_linestring_to_graph g line idx = (g, 0%nat).
Proof.
  intros Hlen. unfold _add_linestring_to_graph.
  now replace (length line - 1)%nat with 0%nat by lia.
Qed.

Lemma build_row_without_line_path (st : Graph * nat) (idx : nat) (geom : Geometry) :
  no_line_path geom -> build_row st (idx, geom) = st.
Proof.
  destruct st as [g count]. destruct geom as [coords | geoms |]; simpl; intros H.
  - unfold build_row; simpl. rewrite add_short_linestring by exact H.
    simpl. now rewrite Nat.add_0_r.
  - unfold build_row; simpl. revert g count.
    induction H as [| line geoms Hline _ IH]; intros g count; simpl; [reflexivity |].
    rewrite add_short_linestring by exact Hline. simpl.
    rewrite Nat.add_0_r. apply IH.
  - reflexivity.
Qed.

Lemma build_rows_without_line_path (rows : list Geometry) (start : nat)
  (st : Graph * nat) :
  Forall no_line_path rows ->
  fold_left build_row (combine (seq start (length rows)) rows) st = st.
Proof.
  intros Hrows. revert start.
  induction Hrows as [| row rows Hrow _ IH]; intros start; simpl; [reflexivity |].
  rewrite build_row_without_line_path by exact Hrow. apply IH.
Qed.

(** C6 as amended: [build_graph] reports failure exactly when no road data
    is loaded, and then changes nothing; loaded data without a line path (in
    particular with no row at all) gives success and an empty graph. *)
Theorem build_graph_fails_only_without_data (self : RoutePlanner Polygon) :
  (fst (build_graph self) = false <-> gdf self = None) /\
  (gdf self = None -> build_graph self = (false, self)) /\
  (forall df, gdf self = Some df -> Forall no_line_path df ->
     build_graph self = (true, set_graph self (Some empty_graph))).
Proof.
  unfold build_graph. destruct (gdf self) as [df |]; simpl.
  - split; [split; discriminate |]. split; [discriminate |].
    intros df' [= <-] Hrows. unfold iterrows.
    now rewrite build_rows_without_line_path.
  - repeat split; auto. intros df [=].
Qed.

End Route.
End RouteFacts.

(* ================================================================= *)
(** ** The example maps, evaluated *)

Module ScenarioFacts.
Import Utils Nx Py Engine Weighting Segments Locator NxContract Scenario.
Import UtilsFacts PyFacts GraphFacts MetricFacts OverlayFacts BuilderFacts.
Import LocatorFacts RouteFacts.

Lemma box_intersects_true l z : meets l z -> box_intersects l z = true.
Proof.
  intros H. unfold box_intersects.
  destruct (excluded_middle_informative (meets l z)); [reflexivity | contradiction].
Qed.

Lemma box_intersects_false l z : ~ meets l z -> box_intersects l z = false.
Proof.
  intros H. unfold box_intersects.
  destruct (excluded_middle_informative (meets l z)); [contradiction | reflexivity].
Qed.

Lemma oracle_astar_contract : raises_no_path_when_disconnected oracle_astar.
Proof.
  intros g s t h _ _ Hdis. unfold oracle_astar.
  destruct (excluded_middle_informative (connected g s t)); [contradiction | reflexivity].
Qed.

(** Two of the named nodes differ. *)
Ltac node_neq :=
  let E := fresh "E" in
  unfold A, B, C, D; intros E; injection E; intros; lra.

Ltac node_eqb_eval :=
  repeat match goal with
  | |- context [node_eqb ?a ?b] =>
      first [ rewrite (node_eqb_refl a)
            | rewrite (node_eqb_neq a b) by node_neq ]
  end.

(** Runs the builder on named nodes. *)
Ltac graph_eval :=
  repeat (progress (cbn -[node_eqb new_edge_data haversine_distance box_intersects];
                    unfold add_edge, add_node, same_edge, get_edge_data;
                    node_eqb_eval)).

(** A two-point line and a box share no point. *)
Ltac no_meet :=
  apply box_intersects_false; unfold meets, in_box, point_on; simpl;
  intros [(t & Ht & Hx & Hy) | []]; lra.

(** The plumbing of [set_flood_zones] on a planner given by its fields. *)
Ltac planner_eval :=
  cbn [snd set_flood_zones _mark_flooded_edges set_graph graph flood_zones
       gdf geojson_path planner_of].

Lemma build_test_map :
  build_graph (planner_of test_map)
  = (true, set_graph (planner_of test_map) (Some test_graph)).
Proof.
  unfold build_graph, planner_of, test_map, iterrows, test_graph.
  graph_eval. reflexivity.
Qed.

Lemma build_direct_map :
  build_graph (planner_of direct_map)
  = (true, set_graph (planner_of direct_map) (Some direct_graph)).
Proof.
  unfold build_graph, planner_of, direct_map, iterrows, direct_graph.
  graph_eval. reflexivity.
Qed.

Lemma build_split_map :
  build_graph (planner_of split_map)
  = (true, set_graph (planner_of split_map) (Some split_graph)).
Proof.
  unfold build_graph, planner_of, split_map, iterrows, split_graph.
  graph_eval. reflexivity.
Qed.

Lemma flood_poly_meets_AB : box_intersects [A; B] flood_poly = true.
Proof.
  apply box_intersects_true. left. exists (1 / 2).
  unfold in_box, point_on, A, B, flood_poly; simpl. lra.
Qed.

Lemma flood_poly_misses_AC : box_intersects [A; C] flood_poly = false.
Proof. unfold A, C, flood_poly. no_meet. Qed.

Lemma flood_poly_misses_CB : box_intersects [C; B] flood_poly = false.
Proof. unfold B, C, flood_poly. no_meet. Qed.

Lemma far_poly_misses_AB : box_intersects [A; B] far_poly = false.
Proof. unfold A, B, far_poly. no_meet. Qed.

Lemma far_poly_misses_AC : box_intersects [A; C] far_poly = false.
Proof. unfold A, C, far_poly. no_meet. Qed.

Lemma far_poly_misses_CB : box_intersects [C; B] far_poly = false.
Proof. unfold B, C, far_poly. no_meet. Qed.

Lemma dist_AB_lower : 500 < dist_AB.
Proof.
  unfold dist_AB. pose proof PI_bounds as HPI.
  eapply Rlt_le_trans; [| apply haversine_distance_lower].
  unfold haversine_a, radians.
  replace ((52.40 - 52.40) * (PI / 180) / 2) with 0 by field.
  rewrite sin_0.
  set (phi := 52.40 * (PI / 180)).
  set (dl := (16.92 - 16.90) * (PI / 180) / 2).
  assert (Hc : 1 / 2 < cos phi).
  { rewrite <- cos_PI3. apply cos_decreasing_1; unfold phi; lra. }
  assert (Hs : dl / 2 <= sin dl) by (apply sin_lower_half; unfold dl; lra).
  assert (Hdl : 1 / 6000 < dl) by (unfold dl; lra).
  replace (0 ^ 2 + cos phi * cos phi * sin dl ^ 2) with ((cos phi * sin dl) ^ 2) by ring.
  rewrite sqrt_pow2 by nra.
  nra.
Qed.
Lemma dist_AB_pos : 0 < dist_AB.
Proof. pose proof dist_AB_lower. lra. Qed.

(** One overlay pass on named edges. *)
Ltac overlay_eval :=
  unfold mark_edges, mark_edge_data;
  cbn -[haversine_distance box_intersects];
  rewrite ?flood_poly_meets_AB, ?flood_poly_misses_AC, ?flood_poly_misses_CB,
    ?far_poly_misses_AB, ?far_poly_misses_AC, ?far_poly_misses_CB;
  cbn -[haversine_distance box_intersects].

Lemma mark_test_graph :
  mark_edges box_intersects [flood_poly] test_graph = test_graph_once.
Proof. unfold test_graph, test_graph_once. overlay_eval. reflexivity. Qed.

Lemma mark_test_graph_again :
  mark_edges box_intersects [flood_poly] test_graph_once = test_graph_twice.
Proof. unfold test_graph_once, test_graph_twice. overlay_eval. reflexivity. Qed.


Lemma mark_direct_graph_twice :
  mark_edges box_intersects [flood_poly]
    (mark_edges box_intersects [flood_poly] direct_graph) = direct_graph_twice.
Proof.
  unfold direct_graph, direct_graph_twice. overlay_eval. overlay_eval. reflexivity.
Qed.

Lemma base_distance_AB (w : R) :
  base_distance (flooded (new_edge_data A B 0 0) w) = dist_AB.
Proof. reflexivity. Qed.

Lemma lookup_first_edge (u v : node) (d : EdgeData) rest (ns : list node) :
  get_edge_data {| nodes := ns; edges := (u, v, d) :: rest |} u v = Some d.
Proof. unfold get_edge_data. cbn [edges lookup_edge]. now rewrite same_edge_refl. Qed.

(** C1, at the failing input: the road map of the repository's test,
    overlaid twice with the polygon of the test.  The direct road is flagged
    and intersects the zone, and its weight is its base distance times
    10,000, not times 100. *)
Theorem overlay_twice_compounds_penalty :
  let built := snd (build_graph (planner_of test_map)) in
  let once := snd (set_flood_zones box_intersects built [flood_poly]) in
  let twice := snd (set_flood_zones box_intersects once [flood_poly]) in
  exists g d,
    graph twice = Some g /\ get_edge_data g A B = Some d /\
    is_flooded d = true /\
    hit box_intersects [flood_poly] d = true /\
    weight d = base_distance d * 100 * 100 /\
    weight d <> base_distance d * 100 /\
    ~ weighted_data d.
Proof.
  cbv zeta. rewrite build_test_map. planner_eval.
  rewrite mark_test_graph, mark_test_graph_again.
  eexists _, _. split; [reflexivity |].
  split; [apply lookup_first_edge |].
  unfold weighted_data. rewrite base_distance_AB. pose proof dist_AB_pos.
  repeat split.
  - unfold hit. cbn -[box_intersects]. now rewrite flood_poly_meets_AB.
  - simpl. lra.
  - simpl. intros [_ H1]. specialize (H1 eq_refl). lra.
Qed.

Lemma nearest_direct_A : _find_nearest_node direct_graph_twice 52.40 16.90 = Some A.
Proof.
  apply (find_nearest_node_at direct_graph_twice A).
  - simpl. tauto.
  - intros x [<- | [<- | []]] Hne; [congruence |].
    unfold query_distance. simpl. apply dist_AB_pos.
Qed.

Lemma nearest_direct_B : _find_nearest_node direct_graph_twice 52.40 16.92 = Some B.
Proof.
  apply (find_nearest_node_at direct_graph_twice B).
  - simpl. tauto.
  - intros x [<- | [<- | []]] Hne; [| congruence].
    unfold query_distance. simpl. apply haversine_pos_lon; lra.
Qed.

Lemma direct_twice_path_length :
  _calculate_path_length direct_graph_twice [A; B] = 100 * dist_AB.
Proof.
  rewrite calculate_path_length_sum. cbn [sum_over_path].
  unfold direct_graph_twice. rewrite lookup_first_edge.
  unfold restored_weight. simpl. field.
Qed.

(** C2: the direct road alone, overlaid twice with the polygon of the
    test, and the request from A to B, whose route is that road.  The
    request succeeds and counts one hazardous segment; the distance it
    reports is not the sum of the base distances along the route, nor its
    rounding, but more than 99 times that sum. *)
Lemma route_distance_after_two_overlays :
  let built := snd (build_graph (planner_of direct_map)) in
  let once := snd (set_flood_zones box_intersects built [flood_poly]) in
  let twice := snd (set_flood_zones box_intersects once [flood_poly]) in
  exists g r x,
    graph twice = Some g /\
    find_route direct_search twice 52.40 16.90 52.40 16.92 = (Some r, twice) /\
    status (metadata r) = "success"%string /\
    features r =
      Some [ {| coordinates := [A; B];
                properties := {| distance_meters := x; nodes_count := 2;
                                 flooded_segments := 1 |} |} ] /\
    md_distance_meters (metadata r) = Some x /\
    x = round2 (_calculate_path_length g [A; B]) /\
    _count_flooded_segments g [A; B] = 1%nat /\
    0 < true_distance g [A; B] /\
    99 * true_distance g [A; B] < x /\
    x <> true_distance g [A; B] /\
    x <> round2 (true_distance g [A; B]).
Proof.
  cbv zeta. rewrite build_direct_map. planner_eval.
  rewrite mark_direct_graph_twice.
  assert (Htrue : true_distance direct_graph_twice [A; B] = dist_AB).
  { unfold true_distance. cbn [sum_over_path].
    unfold direct_graph_twice. rewrite lookup_first_edge, base_distance_AB. ring. }
  assert (Hcount : _count_flooded_segments direct_graph_twice [A; B] = 1%nat).
  { rewrite count_flooded_segments_sum. cbn [flooded_on_path].
    unfold direct_graph_twice. now rewrite lookup_first_edge. }
  pose proof dist_AB_lower as Hd.
  pose proof (round2_close (100 * dist_AB)) as Hround.
  pose proof (round2_close dist_AB) as Hround1.
  exists direct_graph_twice. eexists. exists (round2 (100 * dist_AB)).
  split; [reflexivity |]. split.
  { unfold find_route. cbn [graph set_graph].
    rewrite nearest_direct_A, nearest_direct_B. reflexivity. }
  split; [reflexivity |]. split.
  { cbn [success_dict features]. rewrite Hcount, direct_twice_path_length.
    reflexivity. }
  split.
  { cbn [success_dict metadata md_distance_meters].
    now rewrite direct_twice_path_length. }
  rewrite direct_twice_path_length, Htrue.
  repeat split; try lra. exact Hcount.
Qed.

Lemma nearest_once_A : _find_nearest_node test_graph_once 52.40 16.90 = Some A.
Proof.
  apply (find_nearest_node_at test_graph_once A).
  - simpl. tauto.
  - intros x [<- | [<- | [<- | []]]] Hne; try congruence;
      unfold query_distance; simpl;
      first [ apply haversine_pos_lon; lra | apply haversine_pos_lat; lra ].
Qed.

Lemma nearest_once_B : _find_nearest_node test_graph_once 52.40 16.92 = Some B.
Proof.
  apply (find_nearest_node_at test_graph_once B).
  - simpl. tauto.
  - intros x [<- | [<- | [<- | []]]] Hne; try congruence;
      unfold query_distance; simpl;
      first [ apply haversine_pos_lon; lra | apply haversine_pos_lat; lra ].
Qed.



(** C6, counterexample: road data with no rows.  [build_graph] returns
    [True] and installs the empty graph. *)
Lemma build_graph_accepts_empty_data :
  gdf (planner_of []) = Some [] /\
  build_graph (planner_of [])
  = (true, set_graph (planner_of []) (Some empty_graph)).
Proof. split; reflexivity. Qed.

(** A planner that has loaded nothing. *)
Lemma build_graph_fails_only_without_data_witness :
  build_graph (@init Box "data/map_data.geojson")
  = (false, init "data/map_data.geojson").
Proof.
  apply (proj1 (proj2 (build_graph_fails_only_without_data Box
                         (init "data/map_data.geojson")))).
  reflexivity.
Defined.


(** A walk never leaves a set of nodes that is closed under adjacency. *)
Lemma is_path_closed (P : node -> Prop) (g : Graph) :
  (forall x y, P x -> get_edge_data g x y <> None -> P y) ->
  forall p s t, is_path g s t p -> P s -> P t.
Proof.
  intros Hclosed p. induction p as [| x rest IH]; intros s t Hp Hs; [contradiction |].
  destruct rest as [| y rest].
  - destruct Hp as (-> & <- & _). exact Hs.
  - destruct Hp as (-> & Hedge & Hrest).
    apply (IH y t Hrest). exact (Hclosed s y Hs Hedge).
Qed.

Lemma split_graph_disconnected : ~ connected split_graph A C.
Proof.
  intros (p & Hp).
  assert (H : C = A \/ C = B).
  { apply (is_path_closed (fun x => x = A \/ x = B) split_graph) with (p := p) (s := A);
      [| exact Hp | now left].
    intros x y Hx Hedge. unfold get_edge_data, split_graph in Hedge.
    cbn -[same_edge new_edge_data] in Hedge.
    destruct (same_edge x y A B) eqn:E1.
    - apply same_edge_true in E1. destruct E1 as [[_ ->] | [_ ->]]; tauto.
    - destruct (same_edge x y C D) eqn:E2; [| congruence].
      apply same_edge_true in E2. exfalso.
      destruct E2 as [[-> _] | [-> _]]; destruct Hx as [Hx | Hx];
        revert Hx; node_neq. }
  destruct H as [H | H]; revert H; node_neq.
Qed.

Lemma nearest_split_A : _find_nearest_node split_graph 52.40 16.90 = Some A.
Proof.
  apply (find_nearest_node_at split_graph A).
  - simpl. tauto.
  - intros x [<- | [<- | [<- | [<- | []]]]] Hne; try congruence;
      unfold query_distance; simpl;
      first [ apply haversine_pos_lon; lra | apply haversine_pos_lat; lra ].
Qed.

Lemma nearest_split_C : _find_nearest_node split_graph 52.41 16.91 = Some C.
Proof.
  apply (find_nearest_node_at split_graph C).
  - simpl. tauto.
  - intros x [<- | [<- | [<- | [<- | []]]]] Hne; try congruence;
      unfold query_distance; simpl;
      first [ apply haversine_pos_lon; lra | apply haversine_pos_lat; lra ].
Qed.

(** A request from one of the two disjoint roads to the other. *)
Lemma find_route_no_path_witness :
  let self := snd (build_graph (planner_of split_map)) in
  exists r,
    find_route oracle_astar self 52.40 16.90 52.41 16.91 = (Some r, self) /\
    status (metadata r) = "error"%string /\
    message (metadata r) = Some "Nie znaleziono trasy między punktami"%string /\
    features r = None /\
    md_distance_meters (metadata r) = None /\
    md_start (metadata r) = None /\ md_end (metadata r) = None.
Proof.
  cbv zeta.
  apply (find_route_no_path Box oracle_astar _ split_graph 52.40 16.90 52.41 16.91 A C).
  - exact oracle_astar_contract.
  - rewrite build_split_map. reflexivity.
  - exact nearest_split_A.
  - exact nearest_split_C.
  - exact split_graph_disconnected.
Defined.

(** C4, counterexample: the same request.  The result has a status, and
    the status is ['error'], not ['no_path']. *)
Lemma no_path_status_is_error :
  let self := snd (build_graph (planner_of split_map)) in
  exists r,
    fst (find_route oracle_astar self 52.40 16.90 52.41 16.91) = Some r /\
    status (metadata r) = "error"%string /\
    status (metadata r) <> "no_path"%string.
Proof.
  cbv zeta. rewrite build_split_map. unfold find_route. cbn [snd graph set_graph].
  rewrite nearest_split_A, nearest_split_C.
  rewrite (oracle_astar_contract split_graph A C _heuristic);
    [| simpl; tauto | simpl; tauto | exact split_graph_disconnected].
  exists no_path_dict. repeat split. discriminate.
Qed.


Lemma two_paths_valid (k : nat) : (k < 2)%nat -> valid_segment two_paths k 1.
Proof.
  intros Hk. unfold valid_segment, two_paths.
  destruct k as [| [| k]]; simpl; lia.
Qed.

Lemma two_paths_written_last (k : nat) : (k < 2)%nat -> written_last two_paths k 1.
Proof.
  intros Hk k' j' [Hk' Hj'] Hlater. unfold two_paths in *. simpl in Hk'.
  destruct k' as [| [| k']]; [| | lia];
    destruct k as [| [| k]]; try lia; simpl in Hj';
    destruct j' as [| [| j']]; try lia;
    unfold segment_of, coord_at, same_edge; simpl; now node_eqb_eval.
Qed.

(** Feature 12 of two parts of two segments each: the second segment of
    either part gets the id "12_1". *)
Lemma multipart_segment_ids_witness :
  let g' := fst (build_row (empty_graph, 0%nat) (12%nat, GMultiLineString two_paths)) in
  exists d1 d2,
    get_edge_data g' B C = Some d1 /\ get_edge_data g' D A = Some d2 /\
    same_edge B C D A = false /\
    segment_id d1 = "12_1"%string /\ segment_id d2 = "12_1"%string.
Proof.
  cbv zeta.
  apply (proj2 (proj2 (proj2 (proj2 (proj2
           (multipart_segment_ids (empty_graph, 0%nat) 12%nat two_paths)))))
           0%nat 1%nat 1%nat).
  - lia.
  - apply two_paths_valid; lia.
  - apply two_paths_valid; lia.
  - apply two_paths_written_last; lia.
  - apply two_paths_written_last; lia.
Defined.

End ScenarioFacts.

(* ================================================================= *)
(** ** The haversine distance along great circles *)

Module HaversineMore.
Import Utils UtilsFacts.

Lemma atan2_1_0 : atan2 1 0 = PI / 2.
Proof.
  unfold atan2.
  destruct (Rlt_dec 0 0); [lra |]. destruct (Rlt_dec 0 1); [reflexivity | lra].
Qed.

(** [atan2 (sin x) (cos x)] on the closed first quadrant. *)
Lemma atan2_sin_cos_quadrant (x : R) :
  0 <= x <= PI / 2 -> atan2 (sin x) (cos x) = x.
Proof.
  intros [H0 [H1 | ->]].
  - apply atan2_sin_cos. lra.
  - rewrite sin_PI2, cos_PI2. apply atan2_1_0.
Qed.

(** The distance when the haversine term is [sin x ^ 2] for a half angle
    [x] between a quarter turn back and a quarter turn forth. *)
Lemma distance_of_half_angle (lat1 lon1 lat2 lon2 x : R) :
  - (PI / 2) <= x <= PI / 2 ->
  haversine_a lat1 lon1 lat2 lon2 = sin x ^ 2 ->
  haversine_distance lat1 lon1 lat2 lon2 = 6371000 * (2 * Rabs x).
Proof.
  intros Hx Ha. unfold haversine_distance. cbv zeta. rewrite Ha.
  assert (Hc : 0 <= cos (Rabs x)).
  { apply cos_ge_0; unfold Rabs; destruct (Rcase_abs x); lra. }
  assert (Hs : 0 <= sin (Rabs x)).
  { pose proof PI_bounds. apply sin_ge_0; unfold Rabs; destruct (Rcase_abs x); lra. }
  assert (Esin : sin x ^ 2 = sin (Rabs x) ^ 2).
  { unfold Rabs. destruct (Rcase_abs x); [rewrite sin_neg; ring | reflexivity]. }
  rewrite Esin.
  replace (1 - sin (Rabs x) ^ 2) with (cos (Rabs x) ^ 2).
  2:{ pose proof (sin2_cos2 (Rabs x)) as E. unfold Rsqr in E. nra. }
  rewrite !sqrt_pow2 by assumption.
  rewrite atan2_sin_cos_quadrant; [reflexivity |].
  unfold Rabs. destruct (Rcase_abs x); lra.
Qed.

(** Along a meridian, and along the equator, the distance is the radius
    times the angle between the two points, up to half a turn. *)
Theorem haversine_distance_along_great_circle :
  (forall lat1 lat2 lon, -180 <= lat2 - lat1 <= 180 ->
     haversine_distance lat1 lon lat2 lon
     = 6371000 * (Rabs (lat2 - lat1) * (PI / 180))) /\
  (forall lon1 lon2, -180 <= lon2 - lon1 <= 180 ->
     haversine_distance 0 lon1 0 lon2
     = 6371000 * (Rabs (lon2 - lon1) * (PI / 180))).
Proof.
  pose proof PI_bounds as HPI.
  assert (Habs : forall t, Rabs (t * (PI / 180) / 2) = Rabs t * (PI / 180) / 2).
  { intros t. unfold Rabs.
    destruct (Rcase_abs (t * (PI / 180) / 2)), (Rcase_abs t); nra. }
  split.
  - intros lat1 lat2 lon H.
    rewrite (distance_of_half_angle lat1 lon lat2 lon ((lat2 - lat1) * (PI / 180) / 2)).
    + rewrite Habs. field.
    + nra.
    + unfold haversine_a, radians.
      replace ((lon - lon) * (PI / 180) / 2) with 0 by field.
      rewrite sin_0. ring.
  - intros lon1 lon2 H.
    rewrite (distance_of_half_angle 0 lon1 0 lon2 ((lon2 - lon1) * (PI / 180) / 2)).
    + rewrite Habs. field.
    + nra.
    + unfold haversine_a, radians.
      replace ((0 - 0) * (PI / 180) / 2) with 0 by field.
      replace (0 * (PI / 180)) with 0 by ring.
      rewrite sin_0, cos_0. ring.
Qed.



(** From Poznan one degree north. *)
Lemma haversine_distance_along_great_circle_witness :
  haversine_distance 52 16 53 16 = 6371000 * (Rabs (53 - 52) * (PI / 180)).
Proof. apply (proj1 haversine_distance_along_great_circle). lra. Defined.

End HaversineMore.

(* ================================================================= *)
(** ** The built graph as a function of the road data *)

Module BuildFacts.
Import Utils Nx Py Engine Weighting Segments Build.
Import UtilsFacts GraphFacts BuilderFacts.

Lemma add_linestring_insert_all (g : Graph) (line : LineString) (idx : nat) :
  fst (_add_linestring_to_graph g line idx) = insert_all (part_insertions idx line) g.
Proof. apply add_linestring_insertions. Qed.

Lemma build_row_insertions (st : Graph * nat) (row : nat * Geometry) :
  fst (build_row st row) = insert_all (row_insertions row) (fst st).
Proof.
  destruct row as [idx [coords | geoms |]].
  - unfold build_row, row_insertions; simpl. apply add_linestring_insertions.
  - unfold row_insertions; simpl. apply build_row_multi_insertions.
  - reflexivity.
Qed.

Lemma build_rows_insertions (rows : list (nat * Geometry)) (st : Graph * nat) :
  fst (fold_left build_row rows st)
  = insert_all (concat (map row_insertions rows)) (fst st).
Proof.
  revert st. induction rows as [| row rows IH]; intros st; simpl; [reflexivity |].
  now rewrite IH, insert_all_app, build_row_insertions.
Qed.

(** [build_graph] makes the graph by its [add_edge] calls on an empty one. *)
Lemma build_graph_insertions {Polygon : Type} (self : RoutePlanner Polygon)
  (df : GeoDataFrame) :
  gdf self = Some df ->
  build_graph self
  = (true, set_graph self (Some (insert_all (graph_insertions df) empty_graph))).
Proof.
  intros Hdf. unfold build_graph. rewrite Hdf.
  now rewrite build_rows_insertions.
Qed.

Lemma same_edge_swap (u v a b : node) : same_edge v u a b = same_edge u v a b.
Proof.
  unfold same_edge.
  destruct (node_eqb u a), (node_eqb v b), (node_eqb u b), (node_eqb v a); reflexivity.
Qed.

Lemma lookup_upsert_match es a b d u v :
  same_edge u v a b = true -> lookup_edge (upsert_edge es a b d) u v = Some d.
Proof.
  intros Huv. induction es as [| [[x y] d0] rest IH]; simpl.
  - now rewrite Huv.
  - destruct (same_edge a b x y) eqn:E; simpl.
    + now rewrite <- (same_edge_trans _ _ _ _ x y Huv), E.
    + rewrite <- (same_edge_trans _ _ _ _ x y Huv), E. exact IH.
Qed.

Lemma get_edge_data_add_edge g a b d u v :
  get_edge_data (add_edge g a b d) u v
  = if same_edge u v a b then Some d else get_edge_data g u v.
Proof.
  unfold get_edge_data, add_edge; simpl.
  destruct (same_edge u v a b) eqn:E.
  - now apply lookup_upsert_match.
  - now apply lookup_upsert_other.
Qed.

Lemma get_edge_data_insert_all ins g u v :
  get_edge_data (insert_all ins g) u v = last_write ins u v (get_edge_data g u v).
Proof.
  unfold insert_all, last_write. revert g.
  induction ins as [| e ins IH]; intros g; simpl; [reflexivity |].
  now rewrite IH, get_edge_data_add_edge.
Qed.

(** An edge is looked up in either direction. *)
Lemma get_edge_data_sym g u v : get_edge_data g u v = get_edge_data g v u.
Proof.
  unfold get_edge_data. induction (edges g) as [| [[a b] d] rest IH]; simpl.
  - reflexivity.
  - now rewrite (same_edge_swap u v a b), IH.
Qed.

(** Last write wins: in the graph [build_graph] makes, the attributes of
    the pair [u], [v] are those of the last segment of the road data that
    joins the two nodes, in either direction, and there is no edge when no
    segment joins them. *)
Theorem build_graph_last_write_wins {Polygon : Type} (self : RoutePlanner Polygon)
  (df : GeoDataFrame) :
  gdf self = Some df ->
  exists g,
    graph (snd (build_graph self)) = Some g /\
    forall u v,
      get_edge_data g u v = last_write (graph_insertions df) u v None /\
      get_edge_data g v u = get_edge_data g u v.
Proof.
  intros Hdf. rewrite (build_graph_insertions self df Hdf). simpl.
  eexists. split; [reflexivity |]. intros u v. split.
  - now rewrite get_edge_data_insert_all.
  - apply get_edge_data_sym.
Qed.

End BuildFacts.

(* ================================================================= *)
(** ** The shape of the graph *)

Module WellFormedFacts.
Import Utils Nx Py Engine Weighting Segments Build Overlays.
Import UtilsFacts GraphFacts OverlayFacts BuilderFacts BuildFacts.

Lemma existsb_node_eqb (n : node) (ns : list node) :
  existsb (node_eqb n) ns = true <-> In n ns.
Proof.
  rewrite existsb_exists. split.
  - intros (x & Hx & E). apply node_eqb_eq in E. now subst.
  - intros H. exists n. split; [exact H | apply node_eqb_refl].
Qed.

Lemma add_node_in (ns : list node) (n x : node) :
  In x (add_node ns n) <-> In x ns \/ x = n.
Proof.
  unfold add_node. destruct (existsb (node_eqb n) ns) eqn:E.
  - apply existsb_node_eqb in E. split; [tauto |]. intros [H | ->]; assumption.
  - rewrite in_app_iff. simpl. intuition congruence.
Qed.

Lemma add_node_nodup (ns : list node) (n : node) :
  NoDup ns -> NoDup (add_node ns n).
Proof.
  intros H. unfold add_node. destruct (existsb (node_eqb n) ns) eqn:E; [exact H |].
  assert (Hn : ~ In n ns).
  { intros Hin. apply existsb_node_eqb in Hin. congruence. }
  apply NoDup_app; [exact H | repeat constructor; intros [] | ].
  intros x Hx [<- | []]. contradiction.
Qed.

Lemma upsert_edge_in es u v d e :
  In e (upsert_edge es u v d) ->
  (exists d0, In (fst e, d0) es) \/ e = (u, v, d).
Proof.
  induction es as [| [[a b] d0] rest IH]; simpl.
  - intros [<- | []]. now right.
  - destruct (same_edge u v a b).
    + intros [<- | H].
      * left. exists d0. now left.
      * left. exists (snd e). right. now destruct e.
    + intros [<- | H].
      * left. exists d0. now left.
      * destruct (IH H) as [(d1 & H1) | ->]; [left; exists d1; now right | now right].
Qed.

Lemma upsert_edge_distinct es u v d :
  distinct_pairs es -> distinct_pairs (upsert_edge es u v d).
Proof.
  induction es as [| [[a b] d0] rest IH]; simpl.
  - intros _. split; [constructor | exact I].
  - intros [Hrest Hd]. destruct (same_edge u v a b) eqn:E; simpl.
    + split; assumption.
    + split; [| now apply IH].
      rewrite Forall_forall in *. intros e He.
      destruct (upsert_edge_in _ _ _ _ _ He) as [(d1 & H1) | ->].
      * exact (Hrest _ H1).
      * simpl. exact E.
Qed.

Lemma upsert_edge_spans es u v d :
  geometry d = [u; v] -> Forall spans es -> Forall spans (upsert_edge es u v d).
Proof.
  intros Hg Hes. induction Hes as [| [[a b] d0] rest H0 Hrest IH]; simpl.
  - constructor; [now left | constructor].
  - destruct (same_edge u v a b) eqn:E.
    + constructor; [| exact Hrest].
      apply same_edge_true in E. unfold spans; simpl. rewrite Hg.
      destruct E as [[-> ->] | [-> ->]]; [now left | now right].
    + constructor; assumption.
Qed.

Lemma add_edge_well_formed g u v d :
  geometry d = [u; v] -> well_formed g -> well_formed (add_edge g u v d).
Proof.
  intros Hg (Hnd & Hends & Hdist & Hspans). unfold well_formed, add_edge; simpl.
  split; [now apply add_node_nodup, add_node_nodup |].
  split; [| split; [now apply upsert_edge_distinct | now apply upsert_edge_spans]].
  intros e He. rewrite !add_node_in.
  destruct (upsert_edge_in _ _ _ _ _ He) as [(d0 & H0) | ->].
  - destruct (Hends _ H0) as [Ha Hb]. simpl in Ha, Hb. tauto.
  - simpl. tauto.
Qed.

Lemma add_edge_nodes g u v d x :
  In x (nodes (add_edge g u v d)) <-> In x (nodes g) \/ x = u \/ x = v.
Proof. unfold add_edge; simpl. rewrite !add_node_in. tauto. Qed.

Lemma in_part_insertions_geometry idx line e :
  In e (part_insertions idx line) -> geometry (snd e) = [fst (fst e); snd (fst e)].
Proof.
  intros He. apply in_part_insertions in He. destruct He as (j & _ & ->). reflexivity.
Qed.

Lemma in_graph_insertions_geometry df e :
  In e (graph_insertions df) -> geometry (snd e) = [fst (fst e); snd (fst e)].
Proof.
  unfold graph_insertions. rewrite in_concat. intros (ins & Hins & He).
  apply in_map_iff in Hins. destruct Hins as ([idx geom] & <- & _).
  destruct geom as [coords | geoms |]; unfold row_insertions in He; simpl in He.
  - now apply in_part_insertions_geometry in He.
  - apply in_concat in He. destruct He as (ins & Hins & He).
    apply in_map_iff in Hins. destruct Hins as (line & <- & _).
    now apply in_part_insertions_geometry in He.
  - contradiction.
Qed.

Lemma insert_all_well_formed ins g :
  (forall e, In e ins -> geometry (snd e) = [fst (fst e); snd (fst e)]) ->
  well_formed g -> well_formed (insert_all ins g).
Proof.
  unfold insert_all. revert g.
  induction ins as [| e ins IH]; intros g Hins Hg; simpl; [exact Hg |].
  apply IH; [intros e' He'; apply Hins; now right |].
  apply add_edge_well_formed; [apply Hins; now left | exact Hg].
Qed.

Lemma insert_all_nodes ins g x :
  In x (nodes (insert_all ins g)) <->
  In x (nodes g) \/ exists e, In e ins /\ (x = fst (fst e) \/ x = snd (fst e)).
Proof.
  unfold insert_all. revert g.
  induction ins as [| e ins IH]; intros g; simpl.
  - split; [tauto | intros [H | (e & [] & _)]; exact H].
  - rewrite IH, add_edge_nodes. split.
    + intros [[H | H] | (e' & He' & H)].
      * now left.
      * right. exists e. split; [now left | exact H].
      * right. exists e'. split; [now right | exact H].
    + intros [H | (e' & [<- | He'] & H)].
      * left. now left.
      * left. now right.
      * right. now exists e'.
Qed.

Lemma empty_graph_well_formed : well_formed empty_graph.
Proof.
  unfold well_formed, empty_graph; simpl.
  split; [constructor |]. split; [intros e [] |]. split; [exact I | constructor].
Qed.

Section Marked.
Variable Polygon : Type.
Variable intersects : LineString -> Polygon -> bool.

Lemma mark_edges_well_formed zones g :
  well_formed g -> well_formed (mark_edges intersects zones g).
Proof.
  intros (Hnd & Hends & Hdist & Hspans). unfold well_formed, mark_edges; simpl.
  split; [exact Hnd |]. split; [| split].
  - intros e He. apply in_map_iff in He. destruct He as (e0 & <- & He0).
    simpl. now apply Hends.
  - clear Hends Hspans Hnd. induction (edges g) as [| e rest IH]; simpl; [exact I |].
    destruct Hdist as [Hrest Hd]. split; [| now apply IH].
    rewrite Forall_map. simpl. exact Hrest.
  - rewrite Forall_map. eapply Forall_impl; [| exact Hspans].
    intros e He. unfold spans in *. simpl.
    now rewrite (proj1 (mark_edge_data_geometry _ intersects zones (snd e))).
Qed.

Lemma mark_edges_nil g : mark_edges intersects [] g = g.
Proof.
  destruct g as [ns es]. unfold mark_edges; simpl. f_equal.
  induction es as [| [k d] rest IH]; simpl; [reflexivity |].
  rewrite IH. f_equal. f_equal. unfold mark_edge_data.
  destruct (geometry d); reflexivity.
Qed.

(** One call of [set_flood_zones] on a planner that has a graph. *)
Lemma set_flood_zones_graph (self : RoutePlanner Polygon) g zones :
  graph self = Some g ->
  set_flood_zones intersects self zones =
  (Returned tt,
   {| geojson_path := geojson_path self;
      graph := Some (mark_edges intersects zones g);
      gdf := gdf self; flood_zones := zones |}).
Proof.
  intros Hg. destruct zones as [| z zones].
  - rewrite mark_edges_nil. unfold set_flood_zones, _mark_flooded_edges; simpl.
    now rewrite Hg.
  - apply set_flood_zones_marks; [exact Hg | discriminate].
Qed.

(** The graph after a run of [set_flood_zones] calls. *)
Lemma set_flood_zones_all_graph (self : RoutePlanner Polygon) g zs :
  graph self = Some g ->
  graph (set_flood_zones_all intersects self zs)
  = Some (fold_left (fun g zones => mark_edges intersects zones g) zs g) /\
  gdf (set_flood_zones_all intersects self zs) = gdf self.
Proof.
  unfold set_flood_zones_all. revert self g.
  induction zs as [| zones zs IH]; intros self g Hg; simpl; [now split |].
  rewrite (set_flood_zones_graph self g zones Hg). simpl.
  destruct (IH {| geojson_path := geojson_path self;
                  graph := Some (mark_edges intersects zones g);
                  gdf := gdf self; flood_zones := zones |}
               (mark_edges intersects zones g) eq_refl) as [H1 H2].
  split; [exact H1 | exact H2].
Qed.

Lemma marks_well_formed zs g :
  well_formed g ->
  well_formed (fold_left (fun g zones => mark_edges intersects zones g) zs g) /\
  nodes (fold_left (fun g zones => mark_edges intersects zones g) zs g) = nodes g.
Proof.
  revert g. induction zs as [| zones zs IH]; intros g Hg; simpl; [now split |].
  destruct (IH (mark_edges intersects zones g) (mark_edges_well_formed zones g Hg))
    as [H1 H2].
  split; [exact H1 | now rewrite H2].
Qed.

(** The graph a planner holds after [build_graph] and a run of
    [set_flood_zones] calls. *)
Lemma overlaid_graph (self : RoutePlanner Polygon) (df : GeoDataFrame)
  (zs : list (list Polygon)) :
  gdf self = Some df ->
  graph (snd (build_graph self)) = Some (built df) /\
  graph (set_flood_zones_all intersects (snd (build_graph self)) zs)
  = Some (overlay_all intersects zs (built df)) /\
  gdf (set_flood_zones_all intersects (snd (build_graph self)) zs) = Some df.
Proof.
  intros Hdf. unfold build_graph. rewrite Hdf. simpl.
  fold (built df). split; [reflexivity |].
  destruct (set_flood_zones_all_graph (set_graph self (Some (built df)))
              (built df) zs eq_refl) as [Hg Hd].
  split; [exact Hg | now rewrite Hd].
Qed.

Lemma built_insertions (df : GeoDataFrame) :
  built df = insert_all (graph_insertions df) empty_graph.
Proof. unfold built. now rewrite build_rows_insertions. Qed.

Lemma built_fresh (df : GeoDataFrame) : all_edges fresh_data (built df).
Proof.
  unfold built. apply build_rows_all.
  - intros; apply new_edge_data_fresh.
  - constructor.
Qed.

Lemma overlaid_well_formed (df : GeoDataFrame) (zs : list (list Polygon)) :
  well_formed (overlay_all intersects zs (built df)) /\
  nodes (overlay_all intersects zs (built df)) = nodes (built df).
Proof.
  apply marks_well_formed. rewrite built_insertions.
  apply insert_all_well_formed; [| apply empty_graph_well_formed].
  intros e. apply in_graph_insertions_geometry.
Qed.

(** The graph stays well formed: after [build_graph] and any run of
    [set_flood_zones] calls no node occurs twice, the ends of every edge
    are nodes, no unordered pair has two entries, and every edge's geometry
    runs between its ends.  The nodes are the ends of the segments of the
    road data, and the overlay changes none of them. *)
Theorem built_graph_well_formed (self : RoutePlanner Polygon)
  (df : GeoDataFrame) (zs : list (list Polygon)) :
  gdf self = Some df ->
  exists g,
    graph (set_flood_zones_all intersects (snd (build_graph self)) zs) = Some g /\
    well_formed g /\
    forall x, In x (nodes g) <->
      exists e, In e (graph_insertions df) /\ (x = fst (fst e) \/ x = snd (fst e)).
Proof.
  intros Hdf. destruct (overlaid_graph self df zs Hdf) as (_ & Hg & _).
  eexists. split; [exact Hg |].
  destruct (overlaid_well_formed df zs) as [H1 H2].
  split; [exact H1 |]. intros x. rewrite H2, built_insertions.
  rewrite insert_all_nodes. simpl. tauto.
Qed.

End Marked.
End WellFormedFacts.

(* ================================================================= *)
(** ** Runs of overlays *)

Module OverlayLaw.
Import Utils Nx Py Engine Weighting Segments Build Overlays.
Import UtilsFacts GraphFacts MetricFacts OverlayFacts BuilderFacts BuildFacts WellFormedFacts.

Section Law.
Variable Polygon : Type.
Variable intersects : LineString -> Polygon -> bool.

Lemma hits_cons zones zs d :
  hits intersects (zones :: zs) d
  = ((if hit intersects zones d then 1 else 0) + hits intersects zs d)%nat.
Proof. unfold hits; simpl. destruct (hit intersects zones d); reflexivity. Qed.

Lemma hits_mark_edge_data zs zones d :
  hits intersects zs (mark_edge_data intersects zones d) = hits intersects zs d.
Proof.
  unfold hits. f_equal. apply filter_ext. intros z.
  apply hit_mark_edge_data.
Qed.

(** Every pass that hits multiplies the weight by 100 once more. *)
Lemma marked_data zs d :
  geometry d <> [] ->
  geometry (marked intersects zs d) = geometry d /\
  segment_id (marked intersects zs d) = segment_id d /\
  weight (marked intersects zs d) = weight d * 100 ^ hits intersects zs d /\
  is_flooded (marked intersects zs d)
  = is_flooded d || (0 <? hits intersects zs d)%nat.
Proof.
  unfold marked. revert d.
  induction zs as [| zones zs IH]; intros d Hg; simpl.
  - repeat split; [ring | now rewrite orb_false_r].
  - destruct (mark_edge_data_geometry _ intersects zones d) as [G S].
    assert (Hg' : geometry (mark_edge_data intersects zones d) <> []) by now rewrite G.
    destruct (IH _ Hg') as (IG & IS & IW & IF).
    rewrite IG, IS, IW, IF, G, S, hits_mark_edge_data, hits_cons.
    repeat split.
    + destruct (hit intersects zones d) eqn:H.
      * rewrite (proj2 (mark_edge_data_hit _ intersects zones d Hg H)).
        simpl. ring.
      * rewrite (mark_edge_data_miss _ intersects zones d H). simpl. ring.
    + rewrite (mark_edge_data_flag _ intersects zones d Hg).
      destruct (hit intersects zones d), (is_flooded d); simpl;
        try reflexivity; now rewrite ?orb_true_r.
Qed.

Lemma marked_fresh_data zs d0 :
  fresh_data d0 ->
  geometry (marked intersects zs d0) = geometry d0 /\
  segment_id (marked intersects zs d0) = segment_id d0 /\
  weight (marked intersects zs d0) = base_distance d0 * 100 ^ hits intersects zs d0 /\
  is_flooded (marked intersects zs d0) = (0 <? hits intersects zs d0)%nat.
Proof.
  intros Hd0.
  destruct (marked_data zs d0 (fresh_data_geometry d0 Hd0)) as (G & S & W & F).
  destruct Hd0 as (Hf & Hw & _). rewrite W, F, Hf, Hw. now repeat split.
Qed.

Lemma get_edge_data_marks zs g u v :
  get_edge_data (overlay_all intersects zs g) u v
  = option_map (marked intersects zs) (get_edge_data g u v).
Proof.
  unfold marked, overlay_all. revert g.
  induction zs as [| zones zs IH]; intros g; simpl.
  - now destruct (get_edge_data g u v).
  - rewrite IH, get_edge_data_mark_edges. now destruct (get_edge_data g u v).
Qed.

Lemma lookup_edge_key es u v d :
  lookup_edge es u v = Some d ->
  exists a b, In (a, b, d) es /\ same_edge u v a b = true.
Proof.
  induction es as [| [[a b] d0] rest IH]; simpl; [discriminate |].
  destruct (same_edge u v a b) eqn:E.
  - intros [= ->]. exists a, b. split; [now left | exact E].
  - intros H. destruct (IH H) as (a' & b' & Hin & E').
    exists a', b'. split; [now right | exact E'].
Qed.

(** On a well-formed graph the base distance of an edge is the heuristic
    between its two ends. *)
Lemma base_distance_heuristic g u v d :
  well_formed g -> get_edge_data g u v = Some d ->
  base_distance d = _heuristic u v.
Proof.
  intros (_ & _ & _ & Hspans) Hd. unfold get_edge_data in Hd.
  destruct (lookup_edge_key _ _ _ _ Hd) as (a & b & Hin & E).
  rewrite Forall_forall in Hspans. specialize (Hspans _ Hin).
  unfold spans in Hspans. simpl in Hspans.
  apply same_edge_true in E. unfold base_distance, _heuristic.
  destruct E as [[-> ->] | [-> ->]]; destruct Hspans as [-> | ->];
    first [reflexivity | apply haversine_distance_sym].
Qed.

Lemma build_graph_built (self : RoutePlanner Polygon) (df : GeoDataFrame) :
  gdf self = Some df ->
  build_graph self = (true, set_graph self (Some (built df))).
Proof. intros Hdf. unfold build_graph. now rewrite Hdf. Qed.

Lemma base_distance_nonneg d : 0 <= base_distance d.
Proof.
  unfold base_distance. destruct (geometry d) as [| s [| e [| ? ?]]]; try lra.
  apply haversine_distance_nonneg.
Qed.

(** The overlay law: after [build_graph] and a run of [set_flood_zones]
    calls the graph has the nodes and the edges of the built graph, with
    their geometry and segment_id; an edge is flagged iff one of the calls
    had a zone that intersects it; and its weight is its base distance
    times 100 to the number of such calls. *)
Theorem overlay_run_law (self : RoutePlanner Polygon) (df : GeoDataFrame)
  (zs : list (list Polygon)) :
  gdf self = Some df ->
  exists g0 g,
    graph (snd (build_graph self)) = Some g0 /\
    graph (set_flood_zones_all intersects (snd (build_graph self)) zs) = Some g /\
    nodes g = nodes g0 /\
    forall u v,
      match get_edge_data g0 u v with
      | None => get_edge_data g u v = None
      | Some d0 =>
          exists d, get_edge_data g u v = Some d /\
            geometry d = geometry d0 /\ segment_id d = segment_id d0 /\
            weight d = base_distance d0 * 100 ^ hits intersects zs d0 /\
            is_flooded d = (0 <? hits intersects zs d0)%nat
      end.
Proof.
  intros Hdf. destruct (overlaid_graph _ intersects self df zs Hdf) as (H0 & Hg & _).
  exists (built df), (overlay_all intersects zs (built df)).
  split; [exact H0 |]. split; [exact Hg |].
  split; [exact (proj2 (overlaid_well_formed _ intersects df zs)) |].
  intros u v. rewrite get_edge_data_marks.
  destruct (get_edge_data (built df) u v) as [d0 |] eqn:E; simpl; [| reflexivity].
  exists (marked intersects zs d0). split; [reflexivity |].
  apply marked_fresh_data. exact (get_edge_data_all _ _ _ _ _ (built_fresh df) E).
Qed.

(** No edge is cheaper than the heuristic between its ends: after
    [build_graph] and any run of [set_flood_zones] calls, the weight of an
    edge is at least the heuristic evaluated at its two nodes, and equal to
    it when the edge is not flagged. *)
Theorem heuristic_below_edge_weight (self : RoutePlanner Polygon)
  (df : GeoDataFrame) (zs : list (list Polygon)) :
  gdf self = Some df ->
  exists g,
    graph (set_flood_zones_all intersects (snd (build_graph self)) zs) = Some g /\
    forall u v d, get_edge_data g u v = Some d ->
      0 <= _heuristic u v <= weight d /\
      (is_flooded d = false -> weight d = _heuristic u v).
Proof.
  intros Hdf. destruct (overlaid_graph _ intersects self df zs Hdf) as (_ & Hg & _).
  eexists. split; [exact Hg |]. intros u v d Hd.
  rewrite <- (base_distance_heuristic _ u v d
                (proj1 (overlaid_well_formed _ intersects df zs)) Hd).
  rewrite get_edge_data_marks in Hd.
  destruct (get_edge_data (built df) u v) as [d0 |] eqn:E; [| discriminate].
  simpl in Hd. injection Hd as <-.
  destruct (marked_fresh_data zs d0 (get_edge_data_all _ _ _ _ _ (built_fresh df) E))
    as (G & _ & W & F).
  assert (Hb : base_distance (marked intersects zs d0) = base_distance d0)
    by (unfold base_distance; now rewrite G).
  rewrite W, F, Hb.
  pose proof (base_distance_nonneg d0) as Hpos.
  assert (Hpow : 1 <= 100 ^ hits intersects zs d0) by (apply pow_R1_Rle; lra).
  split; [split; [exact Hpos | nra] |].
  intros Hz. apply Nat.ltb_ge in Hz.
  replace (hits intersects zs d0) with 0%nat by lia. simpl. ring.
Qed.

(** A self-loop costs nothing: an edge from a node to itself, which a
    line that repeats a point produces, has weight 0 after [build_graph]
    and keeps it through every overlay, flagged or not. *)
Theorem self_loop_weight_zero (self : RoutePlanner Polygon)
  (df : GeoDataFrame) (zs : list (list Polygon)) :
  gdf self = Some df ->
  exists g,
    graph (set_flood_zones_all intersects (snd (build_graph self)) zs) = Some g /\
    forall u d, get_edge_data g u u = Some d ->
      weight d = 0 /\ _calculate_path_length g [u; u] = 0.
Proof.
  intros Hdf. destruct (overlaid_graph _ intersects self df zs Hdf) as (_ & Hg & _).
  eexists. split; [exact Hg |]. intros u d Hd.
  pose proof (base_distance_heuristic _ u u d
                (proj1 (overlaid_well_formed _ intersects df zs)) Hd) as Hb.
  unfold _heuristic in Hb. rewrite haversine_distance_same in Hb.
  assert (Hw : weight d = 0).
  { rewrite get_edge_data_marks in Hd.
    destruct (get_edge_data (built df) u u) as [d0 |] eqn:E; [| discriminate].
    simpl in Hd. injection Hd as <-.
    destruct (marked_fresh_data zs d0 (get_edge_data_all _ _ _ _ _ (built_fresh df) E))
      as (G & _ & W & _).
    assert (Hb0 : base_distance d0 = 0).
    { rewrite <- Hb. unfold base_distance. now rewrite G. }
    rewrite W, Hb0. ring. }
  split; [exact Hw |].
  rewrite calculate_path_length_sum. cbn [sum_over_path]. rewrite Hd.
  unfold restored_weight. rewrite Hw. destruct (is_flooded d); lra.
Qed.

(** Building again: [build_graph] on a planner whose graph has been
    overlaid gives the graph of the first build, every edge unflagged at
    its base distance, and leaves the stored zone list as the last call of
    [set_flood_zones] set it. *)
Theorem rebuild_discards_overlay (self : RoutePlanner Polygon)
  (df : GeoDataFrame) (zs : list (list Polygon)) :
  gdf self = Some df ->
  let overlaid := set_flood_zones_all intersects (snd (build_graph self)) zs in
  let rebuilt := snd (build_graph overlaid) in
  fst (build_graph overlaid) = true /\
  graph rebuilt = graph (snd (build_graph self)) /\
  flood_zones rebuilt = flood_zones overlaid /\
  exists g, graph rebuilt = Some g /\
    forall u v d, get_edge_data g u v = Some d ->
      is_flooded d = false /\ weight d = base_distance d.
Proof.
  intros Hdf. cbv zeta.
  destruct (overlaid_graph _ intersects self df zs Hdf) as (H0 & _ & Hgdf).
  rewrite H0, (build_graph_built _ df Hgdf). simpl. repeat split.
  exists (built df). split; [reflexivity |]. intros u v d Hd.
  destruct (get_edge_data_all _ _ _ _ _ (built_fresh df) Hd) as (Hf & Hw & _).
  now split.
Qed.

(** [set_flood_zones] on a planner without a graph: with an empty list it
    returns and stores the list; with zones it raises [AttributeError], and
    the list is stored all the same. *)
Theorem set_flood_zones_without_graph (self : RoutePlanner Polygon)
  (zones : list Polygon) :
  graph self = None ->
  snd (set_flood_zones intersects self zones)
  = {| geojson_path := geojson_path self; graph := None;
       gdf := gdf self; flood_zones := zones |} /\
  (zones = [] -> fst (set_flood_zones intersects self zones) = Returned tt) /\
  (zones <> [] -> fst (set_flood_zones intersects self zones) = Raised "AttributeError").
Proof.
  intros Hg. unfold set_flood_zones, _mark_flooded_edges; simpl. rewrite Hg.
  destruct zones as [| z zones]; simpl; repeat split; congruence.
Qed.

End Law.
End OverlayLaw.

(* ================================================================= *)
(** ** Paths in either direction, and nodes as queries *)

Module PathFacts.
Import Utils Nx Py Engine Weighting Segments Locator Build.
Import UtilsFacts GraphFacts MetricFacts LocatorFacts BuildFacts.

Lemma sum_over_path_snoc (f : EdgeData -> R) g l a b :
  sum_over_path f g (l ++ [a; b])
  = sum_over_path f g (l ++ [a])
    + match get_edge_data g a b with Some d => f d | None => 0 end.
Proof.
  induction l as [| x l IH]; simpl.
  - ring.
  - destruct l as [| y l]; simpl in *.
    + ring.
    + rewrite IH. ring.
Qed.

Lemma sum_over_path_rev (f : EdgeData -> R) g path :
  sum_over_path f g (rev path) = sum_over_path f g path.
Proof.
  induction path as [| x rest IH]; [reflexivity |].
  destruct rest as [| y rest]; [reflexivity |].
  rewrite sum_over_path_step, <- IH.
  change (rev (x :: y :: rest)) with ((rev rest ++ [y]) ++ [x]).
  rewrite <- app_assoc. simpl app. rewrite sum_over_path_snoc.
  change (rev (y :: rest)) with (rev rest ++ [y]).
  rewrite (get_edge_data_sym g x y). ring.
Qed.

Lemma flooded_on_path_snoc g l a b :
  flooded_on_path g (l ++ [a; b])
  = (flooded_on_path g (l ++ [a])
     + match get_edge_data g a b with
       | Some d => if is_flooded d then 1 else 0
       | None => 0
       end)%nat.
Proof.
  induction l as [| x l IH]; simpl.
  - lia.
  - destruct l as [| y l]; simpl in *.
    + lia.
    + rewrite IH. lia.
Qed.

Lemma flooded_on_path_rev g path :
  flooded_on_path g (rev path) = flooded_on_path g path.
Proof.
  induction path as [| x rest IH]; [reflexivity |].
  destruct rest as [| y rest]; [reflexivity |].
  change (flooded_on_path g (x :: y :: rest))
    with ((match get_edge_data g x y with
           | Some d => if is_flooded d then 1 else 0
           | None => 0
           end + flooded_on_path g (y :: rest))%nat).
  rewrite <- IH.
  change (rev (x :: y :: rest)) with ((rev rest ++ [y]) ++ [x]).
  rewrite <- app_assoc. simpl app. rewrite flooded_on_path_snoc.
  change (rev (y :: rest)) with (rev rest ++ [y]).
  rewrite (get_edge_data_sym g x y). lia.
Qed.

Lemma flooded_on_path_bound g path :
  (flooded_on_path g path <= length path - 1)%nat.
Proof.
  induction path as [| x rest IH]; [simpl; lia |].
  destruct rest as [| y rest]; [simpl; lia |].
  change (flooded_on_path g (x :: y :: rest))
    with ((match get_edge_data g x y with
           | Some d => if is_flooded d then 1 else 0
           | None => 0
           end + flooded_on_path g (y :: rest))%nat).
  simpl length in *.
  destruct (get_edge_data g x y) as [d |]; [destruct (is_flooded d) |]; lia.
Qed.

(** The two path metrics do not depend on the direction of travel: the
    reversed path has the same length and the same number of flagged
    segments; and a path never has more flagged segments than it has
    steps. *)
Theorem path_metrics_reverse (g : Graph) (path : list node) :
  _calculate_path_length g (rev path) = _calculate_path_length g path /\
  _count_flooded_segments g (rev path) = _count_flooded_segments g path /\
  (_count_flooded_segments g path <= length path - 1)%nat.
Proof.
  rewrite !calculate_path_length_sum, !count_flooded_segments_sum.
  split; [apply sum_over_path_rev |].
  split; [apply flooded_on_path_rev | apply flooded_on_path_bound].
Qed.


End PathFacts.

(* ================================================================= *)
(** ** Properties of the coordinate validation *)

Module ValidationFacts.
Import Stdlib.Strings.Ascii.
Import Utils Nx Py Engine Validation.

Lemma split_length (sep : ascii) (s : string) :
  length (split sep s) = S (count_char sep s).
Proof.
  induction s as [| c rest IH]; [reflexivity |].
  simpl. destruct (Ascii.eqb c sep); simpl.
  - now rewrite IH.
  - destruct (split sep rest) as [| part parts]; [discriminate IH |].
    simpl in *. exact IH.
Qed.

Lemma join_split (sep : ascii) (s : string) : join sep (split sep s) = s.
Proof.
  induction s as [| c rest IH]; [reflexivity |].
  simpl. destruct (Ascii.eqb c sep) eqn:E.
  - apply Ascii.eqb_eq in E. subst c.
    pose proof (split_length sep rest) as Hlen.
    destruct (split sep rest) as [| part parts]; [discriminate Hlen |].
    change (join sep (EmptyString :: part :: parts))
      with (String sep (join sep (part :: parts))).
    now rewrite IH.
  - pose proof (split_length sep rest) as Hlen.
    destruct (split sep rest) as [| part parts]; [discriminate Hlen |].
    destruct parts as [| part' parts].
    + simpl in *. now rewrite IH.
    + change (join sep (String c part :: part' :: parts))
        with (String c (part ++ String sep (join sep (part' :: parts)))).
      change (join sep (part :: part' :: parts))
        with (part ++ String sep (join sep (part' :: parts)))%string in IH.
      now rewrite IH.
Qed.

Lemma count_char_space (c c' : ascii) :
  is_space c = false -> is_space c' = true -> Ascii.eqb c' c = false.
Proof.
  intros Hc Hc'. destruct (Ascii.eqb c' c) eqn:E; [| reflexivity].
  apply Ascii.eqb_eq in E. congruence.
Qed.

Lemma count_char_lstrip (c : ascii) (s : string) :
  is_space c = false -> count_char c (lstrip s) = count_char c s.
Proof.
  intros Hc. induction s as [| c' rest IH]; [reflexivity |].
  simpl. destruct (is_space c') eqn:E; [| reflexivity].
  now rewrite IH, (count_char_space c c' Hc E).
Qed.

Lemma count_char_rstrip (c : ascii) (s : string) :
  is_space c = false -> count_char c (rstrip s) = count_char c s.
Proof.
  intros Hc. induction s as [| c' rest IH]; [reflexivity |].
  simpl. destruct (rstrip rest) as [| c'' rest'].
  - rewrite <- IH. destruct (is_space c') eqn:E; simpl.
    + now rewrite (count_char_space c c' Hc E).
    + reflexivity.
  - rewrite <- IH. reflexivity.
Qed.

Lemma count_char_strip (c : ascii) (s : string) :
  is_space c = false -> count_char c (strip s) = count_char c s.
Proof.
  intros Hc. unfold strip.
  now rewrite count_char_rstrip, count_char_lstrip.
Qed.

Lemma lstrip_all_space (w : string) : all_space w = true -> lstrip w = EmptyString.
Proof.
  induction w as [| c rest IH]; [reflexivity |]. simpl.
  intros H. apply andb_true_iff in H. destruct H as [-> H]. now apply IH.
Qed.

Lemma rstrip_all_space (w : string) : all_space w = true -> rstrip w = EmptyString.
Proof.
  induction w as [| c rest IH]; [reflexivity |]. simpl.
  intros H. apply andb_true_iff in H. destruct H as [-> H]. now rewrite IH.
Qed.

Lemma lstrip_app_space (w s : string) :
  all_space w = true -> lstrip (w ++ s) = lstrip s.
Proof.
  induction w as [| c rest IH]; [reflexivity |]. simpl.
  intros H. apply andb_true_iff in H. destruct H as [-> H]. now apply IH.
Qed.

Lemma rstrip_app_space (s w : string) :
  all_space w = true -> rstrip (s ++ w) = rstrip s.
Proof.
  intros Hw. induction s as [| c rest IH]; simpl.
  - now apply rstrip_all_space.
  - now rewrite IH.
Qed.

Lemma strip_app_space (s w : string) :
  all_space w = true -> strip (s ++ w) = strip s.
Proof.
  intros Hw. unfold strip. induction s as [| c rest IH]; simpl.
  - now rewrite (lstrip_all_space w Hw).
  - destruct (is_space c); [exact IH |].
    change (String c (rest ++ w)) with (String c rest ++ w)%string.
    now apply rstrip_app_space.
Qed.

(** Whitespace around a string is the same to [strip]. *)
Lemma strip_padded (w1 s w2 : string) :
  all_space w1 = true -> all_space w2 = true ->
  strip (w1 ++ s ++ w2) = strip s.
Proof.
  intros H1 H2. unfold strip at 1. rewrite (lstrip_app_space w1 _ H1).
  fold (strip (s ++ w2)). now apply strip_app_space.
Qed.

Section Validate.
Variable float : string -> option PyFloat.

Lemma validate_wrong_format (s : string) :
  length (split ","%char (strip s)) <> 2%nat ->
  validate_coordinates float s = ValueError s WrongFormat.
Proof.
  unfold validate_coordinates. cbv zeta.
  destruct (split ","%char (strip s)) as [| p0 [| p1 [| p2 parts]]];
    simpl; intros H; try reflexivity. congruence.
Qed.

(** What [validate_coordinates] returns is in range: an accepted string
    has exactly one comma, the floats of the texts on its two sides are
    finite, the latitude lies in [-90, 90] and the longitude in
    [-180, 180]. *)
Theorem validate_coordinates_in_range (s : string) (lat lon : R) :
  validate_coordinates float s = Coordinates lat lon ->
  -90 <= lat <= 90 /\ -180 <= lon <= 180 /\
  count_char ","%char s = 1%nat /\
  exists part0 part1,
    strip s = (part0 ++ String ","%char part1)%string /\
    float (strip part0) = Some (Fin lat) /\
    float (strip part1) = Some (Fin lon).
Proof.
  unfold validate_coordinates. cbv zeta. intros H.
  pose proof (split_length ","%char (strip s)) as Hlen.
  pose proof (join_split ","%char (strip s)) as Hjoin.
  destruct (split ","%char (strip s)) as [| p0 [| p1 [| p2 parts]]];
    try discriminate H.
  destruct (float (strip p0)) as [[x | | |] |] eqn:E0; try discriminate H;
    destruct (float (strip p1)) as [[y | | |] |] eqn:E1; try discriminate H;
    destruct (Rle_dec (-90) x); try discriminate H;
    destruct (Rle_dec x 90); try discriminate H;
    try destruct (Rle_dec (-180) y); try discriminate H;
    try destruct (Rle_dec y 180); try discriminate H.
  injection H as <- <-.
  split; [lra |]. split; [lra |]. split.
  - rewrite <- (count_char_strip ","%char s eq_refl). simpl in Hlen. lia.
  - exists p0, p1. split; [now rewrite <- Hjoin |]. now split.
Qed.

Lemma validate_quotes_argument (s s' : string) (cause : Cause) :
  validate_coordinates float s = ValueError s' cause -> s' = s.
Proof.
  unfold validate_coordinates. cbv zeta.
  destruct (split ","%char (strip s)) as [| p0 [| p1 [| p2 parts]]];
    try (intros [= <- _]; reflexivity).
  destruct (float (strip p0)) as [[x | | |] |];
    destruct (float (strip p1)) as [[y | | |] |];
    try destruct (Rle_dec (-90) x); try destruct (Rle_dec x 90);
    try destruct (Rle_dec (-180) y); try destruct (Rle_dec y 180);
    intros H; try discriminate H; now injection H as <- _.
Qed.

(** What [validate_coordinates] refuses: every failure is the
    [ValueError] that quotes the argument as it was given; and the format
    error is raised exactly for the strings that do not have one comma,
    whatever [float] makes of their parts. *)
Theorem validate_coordinates_rejections (s : string) :
  (forall s' cause, validate_coordinates float s = ValueError s' cause -> s' = s) /\
  (validate_coordinates float s = ValueError s WrongFormat
   <-> count_char ","%char s <> 1%nat).
Proof.
  pose proof (split_length ","%char (strip s)) as Hlen.
  rewrite (count_char_strip ","%char s eq_refl) in Hlen.
  split; [intros s' cause; apply validate_quotes_argument |].
  split.
  - unfold validate_coordinates. cbv zeta.
    destruct (split ","%char (strip s)) as [| p0 [| p1 [| p2 parts]]];
      simpl in Hlen; try lia.
    destruct (float (strip p0)) as [[x | | |] |];
      destruct (float (strip p1)) as [[y | | |] |];
      try destruct (Rle_dec (-90) x); try destruct (Rle_dec x 90);
      try destruct (Rle_dec (-180) y); try destruct (Rle_dec y 180);
      intros H; discriminate H.
  - intros Hc. apply validate_wrong_format. rewrite Hlen. lia.
Qed.

(** Whitespace before and after the coordinates does not matter: the
    padded string is accepted with the same coordinates, or refused for
    the same cause. *)
Theorem validate_coordinates_ignores_padding (w1 s w2 : string) :
  all_space w1 = true -> all_space w2 = true ->
  validate_coordinates float (w1 ++ s ++ w2)
  = match validate_coordinates float s with
    | Coordinates lat lon => Coordinates lat lon
    | ValueError _ cause => ValueError (w1 ++ s ++ w2) cause
    end.
Proof.
  intros H1 H2. unfold validate_coordinates. cbv zeta.
  rewrite (strip_padded w1 s w2 H1 H2).
  destruct (split ","%char (strip s)) as [| p0 [| p1 [| p2 parts]]];
    try reflexivity.
  destruct (float (strip p0)) as [[x | | |] |];
    destruct (float (strip p1)) as [[y | | |] |];
    try destruct (Rle_dec (-90) x); try destruct (Rle_dec x 90);
    try destruct (Rle_dec (-180) y); try destruct (Rle_dec y 180);
    reflexivity.
Qed.

End Validate.
End ValidationFacts.

(* ================================================================= *)
(** ** Properties of the start-up and of the request handlers *)

Module ApiFacts.
Import Utils Nx Py Engine Weighting Segments Locator Build Overlays Validation NxWalks Api.
Import UtilsFacts GraphFacts MetricFacts OverlayFacts BuilderFacts LocatorFacts RouteFacts.
Import BuildFacts WellFormedFacts OverlayLaw ValidationFacts.

Lemma last_default (l : list node) (a d d' : node) :
  last (a :: l) d = last (a :: l) d'.
Proof.
  revert a. induction l as [| b l IH]; intros a; [reflexivity |].
  change (last (a :: b :: l) d) with (last (b :: l) d).
  change (last (a :: b :: l) d') with (last (b :: l) d').
  apply IH.
Qed.

Lemma is_path_ends g s t p :
  is_path g s t p -> hd_error p = Some s /\ last p s = t /\ (1 <= length p)%nat.
Proof.
  revert s. induction p as [| x rest IH]; intros s Hp; [contradiction |].
  destruct rest as [| y rest].
  - destruct Hp as (-> & <- & _). simpl. repeat split. lia.
  - destruct Hp as (-> & _ & Hrest).
    destruct (IH y Hrest) as (_ & Hlast & _).
    split; [reflexivity |]. split; [| simpl; lia].
    change (last (s :: y :: rest) s) with (last (y :: rest) s).
    now rewrite (last_default rest y s y).
Qed.

Section App.
Variable Polygon : Type.
Variable intersects : LineString -> Polygon -> bool.
Variable astar_path : Graph -> node -> node -> (node -> node -> R) -> AstarOutcome.
Variable float : string -> option PyFloat.

(** A route follows the roads: when the search returns walks, as networkx
    documents, a successful result lists a walk along edges of the graph
    that starts at the node nearest to the start coordinates and ends at
    the node nearest to the end coordinates, so it has at least one
    node. *)
Theorem find_route_follows_edges (self self' : RoutePlanner Polygon)
  (a b c d : R) (r : RouteDict) :
  returns_walks astar_path ->
  find_route astar_path self a b c d = (Some r, self') ->
  status (metadata r) = "success"%string ->
  exists g s t path props,
    graph self = Some g /\
    _find_nearest_node g a b = Some s /\
    _find_nearest_node g c d = Some t /\
    features r = Some [ {| coordinates := path; properties := props |} ] /\
    is_path g s t path /\
    hd_error path = Some s /\ last path s = t /\
    nodes_count props = length path /\ (1 <= nodes_count props)%nat.
Proof.
  intros Hnx. unfold find_route. intros Hr Hs.
  destruct (graph self) as [g |]; [| discriminate].
  destruct (_find_nearest_node g a b) as [s |] eqn:Es; [| discriminate].
  destruct (_find_nearest_node g c d) as [t |] eqn:Et; [| discriminate].
  destruct (astar_path g s t _heuristic) as [path | |] eqn:Ea; [| | discriminate].
  - injection Hr as <- _. pose proof (Hnx g s t _ path Ea) as Hp.
    destruct (is_path_ends g s t path Hp) as (Hh & Hl & Hlen).
    exists g, s, t, path. eexists. split; [reflexivity |].
    split; [exact Es |]. split; [exact Et |].
    split; [simpl; now rewrite route_coords_path |].
    simpl. repeat split; assumption.
  - injection Hr as <- _. discriminate Hs.
Qed.


(** A planner whose graph has no node: the health check reports healthy
    with status 200 and zero nodes, while the index reports an error and
    the route endpoint can only answer 400 or 500. *)
Theorem empty_graph_healthy_but_unroutable (p : RoutePlanner Polygon) (g : Graph) :
  graph p = Some g -> nodes g = [] ->
  health_check (Some p)
  = ({| health_status := "healthy"; health_nodes_count := 0;
        flood_zones_active := length (flood_zones p) |}, 200%nat) /\
  index (Some p) = "error"%string /\
  forall start_param end_param,
    snd (get_evacuation_route astar_path float (Some p) start_param end_param) = 400%nat \/
    get_evacuation_route astar_path float (Some p) start_param end_param
    = (ErrorBody "Błąd obliczeń", 500%nat).
Proof.
  intros Hg Hn. unfold health_check, index, get_evacuation_route.
  rewrite Hg, Hn. repeat split.
  intros sp ep.
  destruct sp as [s |]; [| now left].
  destruct ep as [e |]; [| now left].
  destruct (missing (Some s) || missing (Some e)); [now left |].
  destruct (validate_coordinates float s) as [slat slon | s' cs]; [| now left].
  destruct (validate_coordinates float e) as [elat elon | e' ce]; [| now left].
  right. unfold find_route. rewrite Hg.
  unfold _find_nearest_node. rewrite Hn. reflexivity.
Qed.

Section Startup.
Variable path_exists : string -> bool.
Variable read_file : string -> Outcome GeoDataFrame.
Variable get_flood_polygons : Outcome (list Polygon).

(** The start-up keeps the weighting invariant.  [initialize_app] leaves
    no planner when the file is missing and a planner without graph when
    the file cannot be read.  Otherwise the planner holds the graph built
    from the file, overlaid once with the zones of the flood service, or
    not at all when the service fails; so every edge of the graph that is
    served weighs its base distance when it is not flagged and 100 times
    its base distance when it is, and it is flagged exactly when its
    segment intersects a zone of the service. *)
Theorem startup_keeps_weighting_invariant :
  match initialize_app intersects path_exists read_file get_flood_polygons with
  | None => path_exists "data/map_data.geojson" = false
  | Some p =>
      path_exists "data/map_data.geojson" = true /\
      geojson_path p = "data/map_data.geojson"%string /\
      match read_file "data/map_data.geojson" with
      | Raised _ => graph p = None /\ gdf p = None /\ flood_zones p = []
      | Returned df =>
          gdf p = Some df /\
          exists g,
            graph p = Some g /\
            nodes g = nodes (built df) /\
            all_edges weighted_data g /\
            match get_flood_polygons with
            | Returned zones =>
                flood_zones p = zones /\
                g = mark_edges intersects zones (built df) /\
                zones_decide_edges intersects zones g
            | Raised _ =>
                flood_zones p = [] /\ g = built df /\ all_edges fresh_data g
            end
      end
  end.
Proof.
  unfold initialize_app, load_road_network. cbv zeta.
  destruct (path_exists "data/map_data.geojson"); simpl; [| reflexivity].
  destruct (read_file "data/map_data.geojson") as [df | exn]; simpl;
    [| repeat split].
  fold (built df).
  destruct get_flood_polygons as [zones | exn].
  - erewrite (set_flood_zones_graph _ intersects _ (built df) zones) by reflexivity.
    simpl. split; [reflexivity |]. split; [reflexivity |]. split; [reflexivity |].
    destruct (mark_fresh_graph _ intersects zones (built df) (built_fresh df))
      as (Hw & Hz & _).
    eexists. split; [reflexivity |]. split; [reflexivity |].
    split; [exact Hw |]. split; [reflexivity |]. split; [reflexivity | exact Hz].
  - simpl. split; [reflexivity |]. split; [reflexivity |]. split; [reflexivity |].
    exists (built df). split; [reflexivity |]. split; [reflexivity |].
    pose proof (built_fresh df) as Hf. split.
    + unfold all_edges in *. eapply Forall_impl; [| exact Hf].
      intros e. apply fresh_data_weighted.
    + now repeat split.
Qed.

End Startup.
End App.
End ApiFacts.

(* ================================================================= *)
(** ** The example requests, evaluated *)

Module RequestFacts.
Import Stdlib.Strings.Ascii.
Import Utils Nx Py Engine Weighting Segments Locator NxContract Scenario.
Import Build Overlays Validation NxWalks Api Requests.
Import UtilsFacts GraphFacts MetricFacts OverlayFacts BuilderFacts LocatorFacts
  RouteFacts ScenarioFacts.
Import HaversineMore BuildFacts WellFormedFacts OverlayLaw PathFacts
  ValidationFacts ApiFacts.

(** The doubled road: the second feature's attributes are the ones kept. *)
Lemma build_graph_last_write_wins_witness :
  exists g,
    graph (snd (build_graph (planner_of doubled_map))) = Some g /\
    forall u v,
      get_edge_data g u v = last_write (graph_insertions doubled_map) u v None /\
      get_edge_data g v u = get_edge_data g u v.
Proof.
  apply (build_graph_last_write_wins (planner_of doubled_map) doubled_map).
  reflexivity.
Defined.

(** The test map after two overlays with the test polygon. *)
Lemma built_graph_well_formed_witness :
  exists g,
    graph (set_flood_zones_all box_intersects
             (snd (build_graph (planner_of test_map)))
             [[flood_poly]; [flood_poly]]) = Some g /\
    well_formed g /\
    forall x, In x (nodes g) <->
      exists e, In e (graph_insertions test_map) /\
                (x = fst (fst e) \/ x = snd (fst e)).
Proof.
  apply (built_graph_well_formed Box box_intersects (planner_of test_map) test_map).
  reflexivity.
Defined.

Lemma overlay_run_law_witness :
  exists g0 g,
    graph (snd (build_graph (planner_of test_map))) = Some g0 /\
    graph (set_flood_zones_all box_intersects
             (snd (build_graph (planner_of test_map)))
             [[flood_poly]; [far_poly]; [flood_poly]]) = Some g /\
    nodes g = nodes g0 /\
    forall u v,
      match get_edge_data g0 u v with
      | None => get_edge_data g u v = None
      | Some d0 =>
          exists d, get_edge_data g u v = Some d /\
            geometry d = geometry d0 /\ segment_id d = segment_id d0 /\
            weight d
            = base_distance d0
              * 100 ^ hits box_intersects [[flood_poly]; [far_poly]; [flood_poly]] d0 /\
            is_flooded d
            = (0 <? hits box_intersects [[flood_poly]; [far_poly]; [flood_poly]] d0)%nat
      end.
Proof.
  apply (overlay_run_law Box box_intersects (planner_of test_map) test_map).
  reflexivity.
Defined.

Lemma heuristic_below_edge_weight_witness :
  exists g,
    graph (set_flood_zones_all box_intersects
             (snd (build_graph (planner_of test_map))) [[flood_poly]]) = Some g /\
    forall u v d, get_edge_data g u v = Some d ->
      0 <= _heuristic u v <= weight d /\
      (is_flooded d = false -> weight d = _heuristic u v).
Proof.
  apply (heuristic_below_edge_weight Box box_intersects (planner_of test_map) test_map).
  reflexivity.
Defined.

Lemma self_loop_weight_zero_witness :
  exists g,
    graph (set_flood_zones_all box_intersects
             (snd (build_graph (planner_of looped_map))) [[flood_poly]]) = Some g /\
    forall u d, get_edge_data g u u = Some d ->
      weight d = 0 /\ _calculate_path_length g [u; u] = 0.
Proof.
  apply (self_loop_weight_zero Box box_intersects (planner_of looped_map) looped_map).
  reflexivity.
Defined.

Lemma rebuild_discards_overlay_witness :
  let overlaid := set_flood_zones_all box_intersects
                    (snd (build_graph (planner_of test_map))) [[flood_poly]] in
  let rebuilt := snd (build_graph overlaid) in
  fst (build_graph overlaid) = true /\
  graph rebuilt = graph (snd (build_graph (planner_of test_map))) /\
  flood_zones rebuilt = flood_zones overlaid /\
  exists g, graph rebuilt = Some g /\
    forall u v d, get_edge_data g u v = Some d ->
      is_flooded d = false /\ weight d = base_distance d.
Proof.
  apply (rebuild_discards_overlay Box box_intersects (planner_of test_map) test_map).
  reflexivity.
Defined.

(** Zones given to a planner that has read the map and not built the
    graph. *)
Lemma set_flood_zones_without_graph_witness :
  snd (set_flood_zones box_intersects (planner_of test_map) [flood_poly])
  = {| geojson_path := geojson_path (planner_of test_map); graph := None;
       gdf := gdf (planner_of test_map); flood_zones := [flood_poly] |} /\
  ([flood_poly] = [] ->
   fst (set_flood_zones box_intersects (planner_of test_map) [flood_poly]) = Returned tt) /\
  ([flood_poly] <> [] ->
   fst (set_flood_zones box_intersects (planner_of test_map) [flood_poly])
   = Raised "AttributeError").
Proof.
  apply (set_flood_zones_without_graph Box box_intersects (planner_of test_map)).
  reflexivity.
Defined.


Lemma oracle_astar_returns_walks : returns_walks oracle_astar.
Proof.
  intros g s t h p. unfold oracle_astar.
  destruct (excluded_middle_informative (connected g s t)) as [H | H];
    [| discriminate].
  intros [= <-].
  exact (proj2_sig (constructive_indefinite_description _ H)).
Qed.

Lemma direct_graph_connected : connected direct_graph A B.
Proof.
  exists [A; B]. simpl. split; [reflexivity |]. split.
  - unfold direct_graph. rewrite lookup_first_edge. discriminate.
  - repeat split. simpl. tauto.
Qed.

Lemma nearest_built_A : _find_nearest_node direct_graph 52.40 16.90 = Some A.
Proof. exact nearest_direct_A. Qed.

Lemma nearest_built_B : _find_nearest_node direct_graph 52.40 16.92 = Some B.
Proof. exact nearest_direct_B. Qed.

Lemma oracle_direct_route :
  exists path,
    find_route oracle_astar (snd (build_graph (planner_of direct_map)))
      52.40 16.90 52.40 16.92
    = (Some (success_dict direct_graph path 52.40 16.90 52.40 16.92),
       snd (build_graph (planner_of direct_map))).
Proof.
  rewrite build_direct_map. unfold find_route. cbn [snd graph set_graph].
  rewrite nearest_built_A, nearest_built_B.
  destruct (oracle_astar direct_graph A B _heuristic) as [path | |] eqn:E.
  - now exists path.
  - exfalso. unfold oracle_astar in E.
    destruct (excluded_middle_informative (connected direct_graph A B)) as [H | H];
      [discriminate | exact (H direct_graph_connected)].
  - exfalso. unfold oracle_astar in E.
    destruct (excluded_middle_informative (connected direct_graph A B));
      discriminate.
Qed.

(** The request from A to B on the direct road. *)
Lemma find_route_follows_edges_witness :
  exists r g s t path props,
    find_route oracle_astar (snd (build_graph (planner_of direct_map)))
      52.40 16.90 52.40 16.92
    = (Some r, snd (build_graph (planner_of direct_map))) /\
    graph (snd (build_graph (planner_of direct_map))) = Some g /\
    _find_nearest_node g 52.40 16.90 = Some s /\
    _find_nearest_node g 52.40 16.92 = Some t /\
    features r = Some [ {| coordinates := path; properties := props |} ] /\
    is_path g s t path /\
    hd_error path = Some s /\ last path s = t /\
    nodes_count props = length path /\ (1 <= nodes_count props)%nat.
Proof.
  destruct oracle_direct_route as [path E].
  exists (success_dict direct_graph path 52.40 16.90 52.40 16.92).
  destruct (find_route_follows_edges Box oracle_astar _ _ _ _ _ _ _
              oracle_astar_returns_walks E eq_refl)
    as (g & s & t & path' & props & H).
  exists g, s, t, path', props. split; [exact E | exact H].
Defined.

Lemma split_test_text :
  split ","%char (strip "52.40,16.92") = ["52.40"; "16.92"]%string.
Proof. reflexivity. Qed.

Lemma validate_text (s lat lon : string) (x y : R) :
  split ","%char (strip s) = [lat; lon] ->
  float_of_text (strip lat) = Some (Fin x) ->
  float_of_text (strip lon) = Some (Fin y) ->
  -90 <= x <= 90 -> -180 <= y <= 180 ->
  validate_coordinates float_of_text s = Coordinates x y.
Proof.
  intros Hs Hx Hy Rx Ry. unfold validate_coordinates. cbv zeta.
  rewrite Hs, Hx, Hy.
  destruct (Rle_dec (-90) x); [| lra]. destruct (Rle_dec x 90); [| lra].
  destruct (Rle_dec (-180) y); [| lra]. destruct (Rle_dec y 180); [| lra].
  reflexivity.
Qed.


Lemma validate_end_text :
  validate_coordinates float_of_text "52.40,16.92" = Coordinates 52.40 16.92.
Proof. apply (validate_text _ "52.40" "16.92"); try reflexivity; lra. Qed.

(** The coordinate text of the tests. *)
Lemma validate_coordinates_in_range_witness :
  -90 <= 52.40 <= 90 /\ -180 <= 16.92 <= 180 /\
  count_char ","%char "52.40,16.92" = 1%nat /\
  exists part0 part1,
    strip "52.40,16.92" = (part0 ++ String ","%char part1)%string /\
    float_of_text (strip part0) = Some (Fin 52.40) /\
    float_of_text (strip part1) = Some (Fin 16.92).
Proof.
  apply (validate_coordinates_in_range float_of_text "52.40,16.92" 52.40 16.92).
  exact validate_end_text.
Defined.

(** The same text after a space and before a line end. *)
Lemma validate_coordinates_ignores_padding_witness :
  validate_coordinates float_of_text (" " ++ "52.40,16.92" ++ String "010"%char "")
  = match validate_coordinates float_of_text "52.40,16.92" with
    | Coordinates lat lon => Coordinates lat lon
    | ValueError _ cause =>
        ValueError (" " ++ "52.40,16.92" ++ String "010"%char "") cause
    end.
Proof.
  apply (validate_coordinates_ignores_padding float_of_text); reflexivity.
Defined.




(** A planner whose road data has no row. *)
Lemma empty_graph_healthy_but_unroutable_witness :
  let p := snd (build_graph (planner_of [])) in
  health_check (Some p)
  = ({| health_status := "healthy"; health_nodes_count := 0;
        flood_zones_active := length (flood_zones p) |}, 200%nat) /\
  index (Some p) = "error"%string /\
  forall start_param end_param,
    snd (get_evacuation_route oracle_astar float_of_text (Some p)
           start_param end_param) = 400%nat \/
    get_evacuation_route oracle_astar float_of_text (Some p) start_param end_param
    = (ErrorBody "Błąd obliczeń", 500%nat).
Proof.
  cbv zeta.
  apply (empty_graph_healthy_but_unroutable Box oracle_astar float_of_text
           (snd (build_graph (planner_of []))) empty_graph); reflexivity.
Defined.

End RequestFacts.

(* ================================================================= *)
(** ** Where rounding decides: the locator and the restored weight in binary64 *)

Module Binary64Facts.
Import PrimFloat.
Import Py Binary64.

Local Set Warnings "-inexact-float".

Section Libm.
Variables sin cos : float -> float.
Variable pow : float -> float -> float.
Variable atan2 : float -> float -> float.

Lemma nearest_step_raised lat lon exn ns :
  fold_left (nearest_step sin cos pow atan2 lat lon) ns (Raised exn) = Raised exn.
Proof. induction ns as [| n ns IH]; [reflexivity | exact IH]. Qed.

(** The only exception of the scan is the [ValueError] of a square root. *)
Lemma nearest_step_value_error lat lon ns st :
  (forall exn, st = Raised exn -> exn = "ValueError"%string) ->
  forall exn,
    fold_left (nearest_step sin cos pow atan2 lat lon) ns st = Raised exn ->
    exn = "ValueError"%string.
Proof.
  revert st. induction ns as [| n ns IH]; intros st Hst exn; simpl; [apply Hst |].
  apply IH. intros e. unfold nearest_step.
  destruct st as [[m nn] | e0]; [| intros [= <-]; now apply Hst].
  unfold haversine_distance, math_sqrt. cbv zeta.
  repeat match goal with
         | |- context [if ?b then _ else _] => destruct b
         end;
    first [now intros [= <-] | discriminate].
Qed.

Lemma haversine_a_far_node :
  libm_at_far_node sin cos pow ->
  haversine_a sin cos pow far_lat far_lon (snd far_node) (fst far_node)
  = 0x1.0000000000001p+0%float.
Proof.
  intros (Hs & Hp & Hc1 & Hc2 & Hq & Hp1).
  unfold haversine_a. cbv zeta.
  change (radians (snd far_node - far_lat) / 2)%float
    with 0x1.d502ad9d5a8fdp-1%float.
  change (radians (fst far_node - far_lon) / 2)%float
    with 0x1.921fb54442d18p+0%float.
  change (radians far_lat) with (-0x1.d502ad9d5a8fdp-1)%float.
  change (radians (snd far_node)) with 0x1.d502ad9d5a8fdp-1%float.
  rewrite Hs, Hp, Hc1, Hc2, Hq, Hp1. reflexivity.
Qed.

Lemma haversine_distance_far_node :
  libm_at_far_node sin cos pow ->
  haversine_distance sin cos pow atan2 far_lat far_lon (snd far_node) (fst far_node)
  = Raised "ValueError".
Proof.
  intros H. unfold haversine_distance. cbv zeta.
  rewrite (haversine_a_far_node H). reflexivity.
Qed.

(** C7: the locator raises for a valid query.  With the values the C
    library returns there, the term [a] of the distance between the query
    at the antipode and the node comes out above 1, the square root of
    [1 - a] raises [ValueError], and so does [_find_nearest_node] on every
    graph that has the node: it returns no vertex and not [None]. *)
Theorem find_nearest_node_raises_near_antipode (nodes : list node) :
  libm_at_far_node sin cos pow ->
  In far_node nodes ->
  haversine_a sin cos pow far_lat far_lon (snd far_node) (fst far_node)
  = 0x1.0000000000001p+0%float /\
  PrimFloat.ltb 1%float (haversine_a sin cos pow far_lat far_lon
                     (snd far_node) (fst far_node)) = true /\
  haversine_distance sin cos pow atan2 far_lat far_lon (snd far_node) (fst far_node)
  = Raised "ValueError" /\
  _find_nearest_node sin cos pow atan2 nodes far_lat far_lon = Raised "ValueError".
Proof.
  intros H Hin.
  split; [exact (haversine_a_far_node H) |].
  split; [rewrite (haversine_a_far_node H); reflexivity |].
  split; [exact (haversine_distance_far_node H) |].
  apply in_split in Hin. destruct Hin as (pre & post & ->).
  unfold _find_nearest_node. rewrite fold_left_app. cbn [fold_left].
  assert (Hstep : exists exn,
            nearest_step sin cos pow atan2 far_lat far_lon
              (fold_left (nearest_step sin cos pow atan2 far_lat far_lon) pre
                 (Returned (infinity, None))) far_node = Raised exn).
  { destruct (fold_left _ pre _) as [[m nn] | exn]; unfold nearest_step; cbv zeta.
    - rewrite (haversine_distance_far_node H). now eexists.
    - now eexists. }
  destruct Hstep as (exn & Hstep).
  assert (Hexn : exn = "ValueError"%string).
  { apply (nearest_step_value_error far_lat far_lon (pre ++ [far_node])
             (Returned (infinity, None))); [discriminate |].
    rewrite fold_left_app. exact Hstep. }
  rewrite Hstep, nearest_step_raised, Hexn. reflexivity.
Qed.

End Libm.

Lemma libm_at_far_node_table : libm_at_far_node sin_at cos_at pow_at.
Proof. repeat split. Qed.

(** A graph of two nodes, the second one the node of the example. *)
Lemma find_nearest_node_raises_near_antipode_witness :
  haversine_a sin_at cos_at pow_at far_lat far_lon (snd far_node) (fst far_node)
  = 0x1.0000000000001p+0%float /\
  PrimFloat.ltb 1%float (haversine_a sin_at cos_at pow_at far_lat far_lon
                     (snd far_node) (fst far_node)) = true /\
  haversine_distance sin_at cos_at pow_at (fun _ _ => zero)
    far_lat far_lon (snd far_node) (fst far_node)
  = Raised "ValueError" /\
  _find_nearest_node sin_at cos_at pow_at (fun _ _ => zero)
    [(16.92%float, 52.4%float); far_node] far_lat far_lon
  = Raised "ValueError".
Proof.
  apply (find_nearest_node_raises_near_antipode sin_at cos_at pow_at
           (fun _ _ => zero)).
  - exact libm_at_far_node_table.
  - right. now left.
Defined.

(** The overlay's multiplication and the path length's division do not
    give the weight back: for an edge of this length the restored weight
    is one unit in the last place below the weight. *)
Lemma restored_weight_differs :
  restored (penalised uneven_weight) = 0x1.533dc28f5c28fp+10%float /\
  uneven_weight = 0x1.533dc28f5c290p+10%float /\
  restored (penalised uneven_weight) <> uneven_weight.
Proof.
  split; [reflexivity |]. split; [reflexivity |].
  intros H.
  assert (E : PrimFloat.eqb (restored (penalised uneven_weight)) uneven_weight = false)
    by reflexivity.
  rewrite H in E. discriminate E.
Qed.

End Binary64Facts.
